(** * Image_tool_simple: the masking canvas, the batch generator and the
      live conversation hook, embedded from the TypeScript sources.

    Part I holds the model, one module per source file:
    - [Canvas2D]: the part of the browser's 2D canvas that
      [components/MaskingCanvas.tsx] calls (bitmaps, Porter-Duff
      compositing, [getImageData], [putImageData], [clearRect],
      [fillRect], [drawImage]);
    - [MaskingCanvas]: [components/MaskingCanvas.tsx];
    - [Generation], [ImageEditor], [ImageEditorPart003]: [handleGenerate]
      of the image editor, in components/ImageEditor.tsx and in the later
      version of that file (unnamed/part_003);
    - [JSString]: strings as sequences of UTF-16 code units, with
      [String.prototype.trim];
    - [LiveConversation]: [hooks/useLiveConversation.ts];
    - [MaskingCanvasSession]: the masking canvas under any sequence of
      mouse events, calls through its handle and layouts;
    - [Upload]: [handleFileChange], [processFiles] and [handleReset] of
      the image editor, in its versions;
    - [ImageEditorPart004]: [handleGenerate] in the first version of the
      editor (unnamed/part_004).

    Part II holds the theorems; Part III holds what holds of whole
    sessions of the canvas, of every run of [handleGenerate], of the
    uploads and of every run of the hook. *)

From Stdlib Require Import ZArith QArith Qminmax Lqa String Ascii List Lia.
From stdpp Require Import base list gmap.
Import ListNotations.

Local Open Scope Z_scope.

(* ===================================================================== *)
(** * Part I: the model *)
(* ===================================================================== *)

(** ** The 2D canvas *)

Module Canvas2D.

(** One pixel, four channels in 0..255, alpha not premultiplied: the view
    that [ImageData] gives of a bitmap.  The backing store of a canvas is
    identified with this view. *)
Record RGBA := mkRGBA { red : Z; green : Z; blue : Z; alpha : Z }.

Definition transparent : RGBA := mkRGBA 0 0 0 0.
Definition white : RGBA := mkRGBA 255 255 255 255.     (* fillStyle = 'white' *)
Definition black : RGBA := mkRGBA 0 0 0 255.           (* fillStyle = 'black' *)
Definition red500 : RGBA := mkRGBA 239 68 68 255.      (* '#ef4444' *)

(** [ImageData]: [data] is row-major, one entry per pixel (the source's
    [Uint8ClampedArray] holds the same pixels, four bytes each). *)
Record ImageData := mkImageData {
  width : nat;
  height : nat;
  data : list RGBA
}.

(** An [HTMLCanvasElement] with its bitmap. *)
Record Canvas := mkCanvas {
  cwidth : nat;
  cheight : nat;
  bitmap : list RGBA
}.

(** [document.createElement('canvas')] followed by the assignments of
    [width] and [height]: the bitmap is transparent black. *)
Definition createCanvas (w h : nat) : Canvas :=
  mkCanvas w h (replicate (w * h) transparent).

(** [globalCompositeOperation], the values the source uses. *)
Inductive CompositeOperation := SourceOver | SourceIn | DestinationOver.

Definition clamp8 (v : Z) : Z := Z.max 0 (Z.min 255 v).

(** Rounded division, and the product of two fractions given in 255ths. *)
Definition div_round (a b : Z) : Z := (2 * a + b) / (2 * b).
Definition mul255 (a b : Z) : Z := div_round (a * b) 255.
Definition unpremul (c a : Z) : Z :=
  if a =? 0 then 0 else Z.min 255 (div_round (c * 255) a).

(** Porter-Duff compositing of source [s] on backdrop [b]:
    [co = as*Fa*Cs + ab*Fb*Cb] and [ao = as*Fa + ab*Fb], with
    - source-over:      [Fa = 1],      [Fb = 1 - as];
    - source-in:        [Fa = ab],     [Fb = 0];
    - destination-over: [Fa = 1 - ab], [Fb = 1]. *)
Definition composite (op : CompositeOperation) (s b : RGBA) : RGBA :=
  let '(Fa, Fb) :=
    match op with
    | SourceOver => (255, 255 - alpha s)
    | SourceIn => (alpha b, 0)
    | DestinationOver => (255 - alpha b, 255)
    end in
  let ao := Z.min 255 (mul255 (alpha s) Fa + mul255 (alpha b) Fb) in
  let ch cs cb :=
    unpremul (mul255 (mul255 cs (alpha s)) Fa + mul255 (mul255 cb (alpha b)) Fb) ao in
  mkRGBA (ch (red s) (red b)) (ch (green s) (green b)) (ch (blue s) (blue b)) ao.

(** Painting: every pixel [(x, y)] of the bitmap is composited with the
    source pixel [src x y]; [i mod w] and [i / w] are the column and the
    row of the [i]-th pixel. *)
Definition paint (op : CompositeOperation) (src : nat -> nat -> RGBA)
    (c : Canvas) : Canvas :=
  mkCanvas (cwidth c) (cheight c)
    (imap (fun i b => composite op (src (i mod cwidth c) (i / cwidth c))%nat b)
          (bitmap c)).

(** A colour laid with a coverage in 0..255 (an antialiased shape gives
    the pixels of its edge a partial coverage). *)
Definition covered (color : RGBA) (coverage : Z) : RGBA :=
  mkRGBA (red color) (green color) (blue color)
         (mul255 (alpha color) (clamp8 coverage)).

(** [ctx.fillRect(0, 0, canvas.width, canvas.height)]: the rectangle
    covers every pixel fully. *)
Definition fillRect_all (op : CompositeOperation) (fillStyle : RGBA)
    (c : Canvas) : Canvas :=
  paint op (fun _ _ => fillStyle) c.

(** [ctx.clearRect(0, 0, canvas.width, canvas.height)]. *)
Definition clearRect_all (c : Canvas) : Canvas :=
  mkCanvas (cwidth c) (cheight c) (replicate (cwidth c * cheight c) transparent).

(** [ctx.getImageData(0, 0, canvas.width, canvas.height)]. *)
Definition getImageData (c : Canvas) : ImageData :=
  mkImageData (cwidth c) (cheight c) (bitmap c).

(** [ctx.putImageData(img, 0, 0)]: the pixels of [img] replace those of
    the canvas where the two overlap, without compositing. *)
Definition putImageData (img : ImageData) (c : Canvas) : Canvas :=
  mkCanvas (cwidth c) (cheight c)
    (imap (fun i old =>
             let x := (i mod cwidth c)%nat in
             let y := (i / cwidth c)%nat in
             if (x <? width img)%nat && (y <? height img)%nat
             then default old (data img !! (y * width img + x)%nat)
             else old)
          (bitmap c)).

(** What the browser decides: the coverage, in 0..255, of each pixel by a
    stroked segment of a given line width and by a filled disc of a given
    diameter, and the pixel that scaling a canvas to [dw] x [dh] gives at
    [(x, y)]. *)
Class Rasterizer := {
  strokeCoverage : Z -> Z * Z -> Z * Z -> nat -> nat -> Z;
  arcCoverage : Z -> Z * Z -> nat -> nat -> Z;
  resample : Canvas -> nat -> nat -> nat -> nat -> RGBA
}.

(** [ctx.drawImage(source, 0, 0, source.width, source.height, 0, 0,
    canvas.width, canvas.height)] under the operation [op]; a source
    canvas with no pixels raises [InvalidStateError] ([None]). *)
Definition drawImage `{Rasterizer} (op : CompositeOperation)
    (source : Canvas) (c : Canvas) : option Canvas :=
  if ((cwidth source =? 0) || (cheight source =? 0))%nat then None
  else Some (paint op (resample source (cwidth c) (cheight c)) c).

(** A rasterizer without antialiasing and with nearest-neighbour scaling:
    a segment covers the pixels within half the line width of its two end
    points (in the maximum norm), a disc the pixels within its radius. *)
Definition near (r : Z) (p : Z * Z) (x y : nat) : bool :=
  (Z.abs (Z.of_nat x - fst p) <=? r) && (Z.abs (Z.of_nat y - snd p) <=? r).

Definition nearest (source : Canvas) (dw dh x y : nat) : RGBA :=
  default transparent
    (bitmap source !! ((y * cheight source / dh) * cwidth source
                       + x * cwidth source / dw)%nat).

#[local] Instance hardEdge : Rasterizer := {|
  strokeCoverage lw p q x y :=
    if near (lw / 2) p x y || near (lw / 2) q x y then 255 else 0;
  arcCoverage d p x y := if near (d / 2) p x y then 255 else 0;
  resample := nearest
|}.


End Canvas2D.

(** ** components/MaskingCanvas.tsx *)

Module MaskingCanvas.
Import Canvas2D.

(** The loaded [HTMLImageElement], as far as the component reads it. *)
Record HTMLImage := mkImage { naturalWidth : nat; naturalHeight : nat }.

(** A position in CSS pixels, taken as a pair of integers. *)
Definition Point : Type := Z * Z.

(** The refs, the state and the props of one mounted component.
    [onHistoryChange] records the arguments of every call of the optional
    callback of that name, newest first. *)
Record State := mkState {
  drawingCanvasRef : option Canvas;
  imageRef : option HTMLImage;
  isDrawing : bool;
  lastPointRef : option Point;
  historyRef : list ImageData;
  historyIndexRef : Z;
  brushSize : Z;
  boundingClientRect : Point;
  onHistoryChange : list (bool * bool)
}.

Definition set_canvas (c : Canvas) (st : State) : State :=
  mkState (Some c) (imageRef st) (isDrawing st) (lastPointRef st)
          (historyRef st) (historyIndexRef st) (brushSize st)
          (boundingClientRect st) (onHistoryChange st).

Definition set_history (h : list ImageData) (i : Z) (st : State) : State :=
  mkState (drawingCanvasRef st) (imageRef st) (isDrawing st) (lastPointRef st)
          h i (brushSize st) (boundingClientRect st) (onHistoryChange st).

Definition set_drawing (d : bool) (st : State) : State :=
  mkState (drawingCanvasRef st) (imageRef st) d (lastPointRef st)
          (historyRef st) (historyIndexRef st) (brushSize st)
          (boundingClientRect st) (onHistoryChange st).

Definition set_lastPoint (p : option Point) (st : State) : State :=
  mkState (drawingCanvasRef st) (imageRef st) (isDrawing st) p
          (historyRef st) (historyIndexRef st) (brushSize st)
          (boundingClientRect st) (onHistoryChange st).

Definition len (h : list ImageData) : Z := Z.of_nat (length h).

(** [Array.prototype.splice(start)]: everything from [start] on is
    removed; a negative [start] counts from the end. *)
Definition splice_from (start : Z) (h : list ImageData) : list ImageData :=
  let s := if start <? 0 then Z.max (len h + start) 0 else Z.min start (len h) in
  take (Z.to_nat s) h.

(** [history[i]] for a number [i]: [undefined] outside the array. *)
Definition at_index (h : list ImageData) (i : Z) : option ImageData :=
  if i <? 0 then None else h !! Z.to_nat i.

Definition updateHistoryState (st : State) : State :=
  mkState (drawingCanvasRef st) (imageRef st) (isDrawing st) (lastPointRef st)
          (historyRef st) (historyIndexRef st) (brushSize st)
          (boundingClientRect st)
          ((0 <? historyIndexRef st,
            historyIndexRef st <? len (historyRef st) - 1) :: onHistoryChange st).

Definition saveState (st : State) : State :=
  match drawingCanvasRef st with
  | None => st
  | Some canvas =>
      let h := if historyIndexRef st <? len (historyRef st) - 1
               then splice_from (historyIndexRef st + 1) (historyRef st)
               else historyRef st in
      updateHistoryState
        (set_history (h ++ [getImageData canvas]) (historyIndexRef st + 1) st)
  end.

Definition restoreState (st : State) : State :=
  match drawingCanvasRef st with
  | None => st
  | Some canvas =>
      let cleared := clearRect_all canvas in
      let restored :=
        if 0 <=? historyIndexRef st
        then stateToRestore ← at_index (historyRef st) (historyIndexRef st);
             Some (putImageData stateToRestore cleared)
        else Some cleared in
      match restored with
      | Some canvas => updateHistoryState (set_canvas canvas st)
      | None => set_canvas cleared st   (* putImageData(undefined, ...) raises *)
      end
  end.

Definition undo (st : State) : State :=
  if 0 <? historyIndexRef st
  then restoreState (set_history (historyRef st) (historyIndexRef st - 1) st)
  else st.

Definition redo (st : State) : State :=
  if historyIndexRef st <? len (historyRef st) - 1
  then restoreState (set_history (historyRef st) (historyIndexRef st + 1) st)
  else st.

Definition clearMask (st : State) : State :=
  match drawingCanvasRef st with
  | None => st
  | Some canvas =>
      saveState (set_history [] (-1) (set_canvas (clearRect_all canvas) st))
  end.

(** The component's [drawImage]: the layout of the image in its container.
    [drawWidth] and [drawHeight] are the display size the source computes
    from the container and the aspect ratio of the image (floating-point
    arithmetic, taken here as given); assigning them resets the bitmap of
    the drawing canvas, and the mask and its history are initialised. *)
Definition drawImage (drawWidth drawHeight : nat) (st : State) : State :=
  match imageRef st, drawingCanvasRef st with
  | Some _, Some _ => clearMask (set_canvas (createCanvas drawWidth drawHeight) st)
  | _, _ => st
  end.

(** [img.onload]. *)
Definition onload (img : HTMLImage) (drawWidth drawHeight : nat) (st : State) : State :=
  drawImage drawWidth drawHeight
    (mkState (drawingCanvasRef st) (Some img) (isDrawing st) (lastPointRef st)
             (historyRef st) (historyIndexRef st) (brushSize st)
             (boundingClientRect st) (onHistoryChange st)).

(** A mouse event: [clientX] and [clientY]. *)
Definition getMousePos (e : Point) (st : State) : option Point :=
  match drawingCanvasRef st with
  | None => None
  | Some _ => Some (fst e - fst (boundingClientRect st),
                    snd e - snd (boundingClientRect st))
  end.

Definition drawOnCanvas `{Rasterizer} (x y : Z) (st : State) : State :=
  match drawingCanvasRef st with
  | None => st
  | Some canvas =>
      let drawn :=
        match lastPointRef st with
        | Some last =>
            paint SourceOver
              (fun px py => covered red500 (strokeCoverage (brushSize st) last (x, y) px py))
              canvas
        | None =>
            paint SourceOver
              (* ctx.arc(x, y, brushSize / 2, 0, Math.PI * 2); ctx.fill() *)
              (fun px py => covered red500 (arcCoverage (brushSize st) (x, y) px py))
              canvas
        end in
      set_lastPoint (Some (x, y)) (set_canvas drawn st)
  end.

Definition handleMouseDown `{Rasterizer} (e : Point) (st : State) : State :=
  let st := set_drawing true st in
  match getMousePos e st with
  | Some pos => drawOnCanvas (fst pos) (snd pos) (set_lastPoint (Some pos) st)
  | None => st
  end.

Definition handleMouseMove `{Rasterizer} (e : Point) (st : State) : State :=
  if negb (isDrawing st) then st
  else match getMousePos e st with
       | Some pos => drawOnCanvas (fst pos) (snd pos) st
       | None => st
       end.

Definition handleMouseUp (st : State) : State :=
  if negb (isDrawing st) then st
  else saveState (set_lastPoint None (set_drawing false st)).

(** A promise that resolves with a value or rejects with a reason. *)
Inductive Settled (A : Type) :=
  | Resolved (v : A)
  | Rejected (reason : string).
Arguments Resolved {A} v.
Arguments Rejected {A} reason.

(** [getMaskAsBase64].  The PNG that [toDataURL('image/png')] encodes is
    lossless, so the data URI is represented by the pixels it decodes to.
    An exception raised inside the promise's executor rejects it.  The new
    canvas always has a 2D context, so the rejection for a missing context
    does not occur. *)
Definition getMaskAsBase64 `{Rasterizer} (st : State) : Settled ImageData :=
  match drawingCanvasRef st, imageRef st with
  | Some drawingCanvas, Some originalImage =>
      let maskCanvas :=
        createCanvas (naturalWidth originalImage) (naturalHeight originalImage) in
      (* Step 1: the strokes, scaled to the size of the original image. *)
      match Canvas2D.drawImage SourceOver drawingCanvas maskCanvas with
      | None => Rejected "InvalidStateError"
      | Some maskCanvas =>
          (* Step 2: 'source-in', a white rectangle over the whole canvas. *)
          let maskCanvas := fillRect_all SourceIn white maskCanvas in
          (* Step 3: 'destination-over', a black rectangle behind. *)
          let maskCanvas := fillRect_all DestinationOver black maskCanvas in
          Resolved (getImageData maskCanvas)
      end
  | _, _ => Rejected "Canvas or image not ready"
  end.

(** The mouse events of the drawing canvas; [onMouseLeave] runs
    [handleMouseUp]. *)
Inductive Event :=
  | MouseDown (e : Point)
  | MouseMove (e : Point)
  | MouseUp
  | MouseLeave.

Definition handle `{Rasterizer} (ev : Event) (st : State) : State :=
  match ev with
  | MouseDown e => handleMouseDown e st
  | MouseMove e => handleMouseMove e st
  | MouseUp | MouseLeave => handleMouseUp st
  end.

Definition run `{Rasterizer} (evs : list Event) (st : State) : State :=
  foldl (fun s ev => handle ev s) st evs.

(** A completed stroke: the button goes down at [start], the pointer moves
    through [moves], the button is released. *)
Record Stroke := mkStroke { start : Point; moves : list Point }.

Definition stroke_events (s : Stroke) : list Event :=
  MouseDown (start s) :: map MouseMove (moves s) ++ [MouseUp].


(** A component that is mounted, before its image has loaded. *)
Definition mounted (size : Z) : State :=
  mkState (Some (createCanvas 300 150)) None false None [] (-1) size (0, 0) [].

End MaskingCanvas.

(** ** The image editor: handleGenerate *)

(** What the versions of [handleGenerate] share: the tool, the uploaded
    images, the request sent to the remote model and its reply. *)
Module Generation.

Local Open Scope string_scope.

Inductive ToolId :=
  | LiveConversation | BackgroundRemover | ImageEnhancer | ImageRestoration
  | ObjectRemover | GenerativeFill | PhotoColorize | ExpandImage.

Definition ToolId_eqb (a b : ToolId) : bool :=
  match a, b with
  | LiveConversation, LiveConversation | BackgroundRemover, BackgroundRemover
  | ImageEnhancer, ImageEnhancer | ImageRestoration, ImageRestoration
  | ObjectRemover, ObjectRemover | GenerativeFill, GenerativeFill
  | PhotoColorize, PhotoColorize | ExpandImage, ExpandImage => true
  | _, _ => false
  end.

Record Tool := mkTool { id : ToolId; basePrompt : string; requiresMask : bool }.

(** An uploaded image: [file.name] and [file.type] stand for the [File]. *)
Record OriginalImage := mkOriginal {
  oid : nat; dataUrl : string; fileName : string; fileType : string
}.

Record GeneratedImage := mkGenerated {
  gid : nat; gdataUrl : string; gfileName : string
}.

(** [s.split(sep)] for a separator of one character. *)
Fixpoint split (sep : ascii) (s : string) : list string :=
  match s with
  | EmptyString => [EmptyString]
  | String c rest =>
      if Ascii.eqb c sep then EmptyString :: split sep rest
      else match split sep rest with
           | [] => [String c EmptyString]
           | w :: ws => String c w :: ws
           end
  end.

Definition comma : ascii := "," % char.
Definition dot : ascii := "." % char.
Definition slash : ascii := "/" % char.

(** [url.split(',')[1]]: [None] is [undefined]. *)
Definition base64_of (url : string) : option string := split comma url !! 1%nat.

(** A part of the request; [data] is [undefined] for a URL without comma. *)
Inductive Part :=
  | InlinePart (data : option string) (mimeType : string)
  | TextPart (text : string).

Definition textPart (tool : Tool) (prompt : string) : Part :=
  TextPart (basePrompt tool ++ (if String.eqb prompt "" then "" else " " ++ prompt)).

Definition imagePart (image : OriginalImage) : Part :=
  InlinePart (base64_of (dataUrl image)) (fileType image).

Definition maskPart (maskDataUrl : string) : Part :=
  InlinePart (base64_of maskDataUrl) "image/png".

(** A thrown value: an [Error] with its message, or something else. *)
Inductive Thrown :=
  | ErrorObject (message : string)
  | OtherValue (value : string).

Record InlineData := mkInline { data : string; mimeType : string }.

(** What [ai.models.generateContent] does with one request: it resolves
    with a response whose [candidates?.[0]?.content?.parts?.[0]] is
    [firstPart] ([None]: undefined; [Some None]: a part without
    [inlineData]), or it rejects. *)
Inductive Reply :=
  | Returns (firstPart : option (option InlineData))
  | Rejects (e : Thrown).

(** The remote model: its reply to the [n]-th call, given the request. *)
Definition Remote : Type := nat -> list Part -> Reply.

(** The state of the component that [handleGenerate] writes, and
    [requests], the calls of [generateContent] made, oldest first. *)
Record State := mkState {
  generatedImages : list GeneratedImage;
  isLoading : bool;
  error : option string;
  requests : list (list Part)
}.

Definition setGeneratedImages (g : list GeneratedImage) (st : State) : State :=
  mkState g (isLoading st) (error st) (requests st).
Definition setIsLoading (b : bool) (st : State) : State :=
  mkState (generatedImages st) b (error st) (requests st).
Definition setError (e : option string) (st : State) : State :=
  mkState (generatedImages st) (isLoading st) e (requests st).
Definition generateContent (ai : Remote) (parts : list Part) (st : State)
    : Reply * State :=
  (ai (length (requests st)) parts,
   mkState (generatedImages st) (isLoading st) (error st) (requests st ++ [parts])).

(** [newImageMime.split('/')[1] || 'png']. *)
Definition extension_of (mime : string) : string :=
  match split slash mime !! 1%nat with
  | Some e => if String.eqb e "" then "png" else e
  | None => "png"
  end.

(** The entry pushed on [processedImages]. *)
Definition processed (image : OriginalImage) (d : InlineData) : GeneratedImage :=
  mkGenerated (oid image)
    ("data:" ++ mimeType d ++ ";base64," ++ data d)
    ("processed_"
     ++ String.concat "." (removelast (split dot (fileName image)))
     ++ "." ++ extension_of (mimeType d)).

Definition noImageData (image : OriginalImage) : string :=
  "Failed to process image: " ++ fileName image ++ ". No image data in response.".

(** The parts of the request for one image.  [mask] is what
    [maskingCanvasRef.current.getMaskAsBase64()] settles to, [None] when
    the ref is empty; a rejected mask is thrown by the [await]. *)
Definition request_parts (tool : Tool) (prompt : string)
    (mask : option (MaskingCanvas.Settled string)) (image : OriginalImage)
    : Thrown + list Part :=
  match (if requiresMask tool then mask else None) with
  | Some (MaskingCanvas.Resolved maskDataUrl) =>
      inr [imagePart image; maskPart maskDataUrl; textPart tool prompt]
  | Some (MaskingCanvas.Rejected reason) => inl (OtherValue reason)
  | None => inr [imagePart image; textPart tool prompt]
  end.

Definition isBatchMode (tool : Tool) : bool := ToolId_eqb (id tool) BackgroundRemover.
Definition requiresPrompt (tool : Tool) : bool := ToolId_eqb (id tool) GenerativeFill.

End Generation.

(** *** components/ImageEditor.tsx *)

Module ImageEditor.
Import Generation.
Local Open Scope string_scope.

(** The [for (const image of originalImages)] loop inside the [try]: the
    state it leaves, and the value thrown if it was left by a throw. *)
Fixpoint generate_loop (tool : Tool) (prompt : string)
    (mask : option (MaskingCanvas.Settled string)) (ai : Remote)
    (originalImages : list OriginalImage)
    (processedImages : list GeneratedImage) (st : State)
    : State * option Thrown :=
  match originalImages with
  | [] => (st, None)
  | image :: rest =>
      match request_parts tool prompt mask image with
      | inl e => (st, Some e)
      | inr parts =>
          match generateContent ai parts st with
          | (Rejects e, st) => (st, Some e)
          | (Returns firstPart, st) =>
              let '(processedImages, st) :=
                match firstPart with
                | Some (Some inlineData) =>
                    let processedImages :=
                      (processedImages ++ [processed image inlineData])%list in
                    (processedImages, setGeneratedImages processedImages st)
                | _ =>
                    (processedImages, setError (Some (noImageData image)) st)
                end in
              (* If not in batch mode, stop after the first image *)
              if negb (isBatchMode tool) then (st, None)
              else generate_loop tool prompt mask ai rest processedImages st
          end
      end
  end.

Definition handleGenerate (tool : Tool) (prompt : string)
    (mask : option (MaskingCanvas.Settled string)) (ai : Remote)
    (originalImages : list OriginalImage) (st : State) : State :=
  if (length originalImages =? 0)%nat
  then setError (Some "Please upload at least one image.") st
  else if requiresPrompt tool && String.eqb prompt ""
  then setError
         (Some "This tool requires a text description of what you want to do.") st
  else
    let st := setGeneratedImages [] (setError None (setIsLoading true st)) in
    let st :=
      match generate_loop tool prompt mask ai originalImages [] st with
      | (st, None) => st
      | (st, Some _) =>
          setError
            (Some "An error occurred during generation. Please check the console for details.")
            st
      end in
    setIsLoading false st.

End ImageEditor.

(** *** The later version of the editor (unnamed/part_003) *)

Module ImageEditorPart003.
Import Generation.
Local Open Scope string_scope.

Fixpoint generate_loop (tool : Tool) (prompt : string)
    (mask : option (MaskingCanvas.Settled string)) (ai : Remote)
    (originalImages : list OriginalImage)
    (processedImages : list GeneratedImage) (st : State)
    : State * option Thrown :=
  match originalImages with
  | [] => (st, None)
  | image :: rest =>
      match request_parts tool prompt mask image with
      | inl e => (st, Some e)
      | inr parts =>
          match generateContent ai parts st with
          | (Rejects e, st) => (st, Some e)
          | (Returns (Some (Some inlineData)), st) =>
              let processedImages :=
                (processedImages ++ [processed image inlineData])%list in
              (* setGeneratedImages(prev => [...prev, ...processedImages.slice(-1)]) *)
              let st :=
                setGeneratedImages
                  (generatedImages st ++ [processed image inlineData])%list st in
              if negb (isBatchMode tool) then (st, None)
              else generate_loop tool prompt mask ai rest processedImages st
          | (Returns _, st) =>
              (st, Some (ErrorObject (noImageData image)))
          end
      end
  end.

Definition handleGenerate (tool : Tool) (prompt : string)
    (mask : option (MaskingCanvas.Settled string)) (ai : Remote)
    (originalImages : list OriginalImage) (st : State) : State :=
  if (length originalImages =? 0)%nat
  then setError (Some "Please upload at least one image.") st
  else if requiresPrompt tool && String.eqb prompt ""
  then setError (Some "This tool requires a text description.") st
  else
    let st := setGeneratedImages [] (setError None (setIsLoading true st)) in
    let st :=
      match generate_loop tool prompt mask ai originalImages [] st with
      | (st, None) => st
      | (st, Some (ErrorObject message)) => setError (Some message) st
      | (st, Some (OtherValue _)) =>
          setError (Some "An error occurred during generation.") st
      end in
    setIsLoading false st.

End ImageEditorPart003.

(** ** Strings *)

(** A string is its sequence of UTF-16 code units. *)
Module JSString.

Local Open Scope N_scope.

(** The code units of a literal. *)
Definition lit (s : string) : list N := map N_of_ascii (list_ascii_of_string s).

(** White space and line terminators, the code points that
    [String.prototype.trim] strips: TAB, LF, VT, FF, CR, SP, NBSP, U+1680,
    U+2000 to U+200A, LS, PS, U+202F, U+205F, U+3000 and the BOM. *)
Definition is_white_space (c : N) : bool :=
  (c =? 9) || (c =? 10) || (c =? 11) || (c =? 12) || (c =? 13) || (c =? 32)
  || (c =? 160) || (c =? 5760) || ((8192 <=? c) && (c <=? 8202))
  || (c =? 8232) || (c =? 8233) || (c =? 8239) || (c =? 8287)
  || (c =? 12288) || (c =? 65279).

Fixpoint trimStart (s : list N) : list N :=
  match s with
  | c :: rest => if is_white_space c then trimStart rest else s
  | [] => []
  end.

Definition trimEnd (s : list N) : list N := rev (trimStart (rev s)).

Definition trim (s : list N) : list N := trimEnd (trimStart s).

(** A string in a condition: true when it is not empty. *)
Definition truthy (s : list N) : bool :=
  match s with [] => false | _ :: _ => true end.

(** [s + v] where [v] may be [undefined]. *)
Definition append_value (s : list N) (v : option (list N)) : list N :=
  s ++ default (lit "undefined") v.

End JSString.

(** ** hooks/useLiveConversation.ts *)

Module LiveConversation.
Import JSString.

Local Open Scope Q_scope.

Inductive ConversationStatus := Idle | Connecting | Active | Stopped | Error.

Definition ConversationStatus_eqb (a b : ConversationStatus) : bool :=
  match a, b with
  | Idle, Idle | Connecting, Connecting | Active, Active
  | Stopped, Stopped | Error, Error => true
  | _, _ => false
  end.

Inductive Speaker := User | Model.

Record TranscriptEntry := mkEntry { speaker : Speaker; text : list N }.

(** The session that [ai.live.connect] promises; [close()] may throw. *)
Record Session := mkSession { closeThrows : bool }.

(** The promise of the session, as it has settled by the time
    [stopConversation] awaits it. *)
Inductive SessionPromise :=
  | Fulfilled (session : Session)
  | RejectedPromise (reason : string).

(** What [stopAudioProcessing] lets go of. *)
Inductive Resource :=
  | MediaTracks | ScriptProcessor | MediaStreamSource
  | InputAudioContext | OutputAudioContext | LiveSession.

(** The state of the hook and its refs (an audio ref is [true] when it
    holds an object), then what the hook does to the rest of the browser:
    - [closureStatus]: the value of [status] in the closure of the
      callbacks given to [ai.live.connect], that is the status rendered
      when [startConversation] was called;
    - [nextSourceId]: the name of the next [AudioBufferSourceNode];
    - [started]: the calls [source.start(t)], oldest first, each with the
      source, [t] and the duration of its buffer;
    - [stopCalls]: the sources on which [stop()] was called;
    - [released]: the resources stopped, disconnected or closed;
    - [console]: the messages of [console.error]. *)
Record State := mkState {
  status : ConversationStatus;
  transcript : list TranscriptEntry;
  error : option string;
  sessionPromiseRef : option SessionPromise;
  inputAudioContextRef : bool;
  outputAudioContextRef : bool;
  scriptProcessorRef : bool;
  mediaStreamSourceRef : bool;
  mediaStreamRef : bool;
  currentInputTranscriptionRef : list N;
  currentOutputTranscriptionRef : list N;
  nextStartTimeRef : Q;
  audioSourcesRef : gset nat;
  closureStatus : ConversationStatus;
  nextSourceId : nat;
  started : list (nat * Q * Q);
  stopCalls : gset nat;
  released : list Resource;
  console : list string
}.

Definition set_status (v : ConversationStatus) (st : State) : State :=
  mkState v (transcript st) (error st) (sessionPromiseRef st)
    (inputAudioContextRef st) (outputAudioContextRef st) (scriptProcessorRef
    st) (mediaStreamSourceRef st) (mediaStreamRef st)
    (currentInputTranscriptionRef st) (currentOutputTranscriptionRef st)
    (nextStartTimeRef st) (audioSourcesRef st) (closureStatus st)
    (nextSourceId st) (started st) (stopCalls st) (released st) (console st).
Definition set_transcript (v : list TranscriptEntry) (st : State) : State :=
  mkState (status st) v (error st) (sessionPromiseRef st)
    (inputAudioContextRef st) (outputAudioContextRef st) (scriptProcessorRef
    st) (mediaStreamSourceRef st) (mediaStreamRef st)
    (currentInputTranscriptionRef st) (currentOutputTranscriptionRef st)
    (nextStartTimeRef st) (audioSourcesRef st) (closureStatus st)
    (nextSourceId st) (started st) (stopCalls st) (released st) (console st).
Definition set_error (v : option string) (st : State) : State :=
  mkState (status st) (transcript st) v (sessionPromiseRef st)
    (inputAudioContextRef st) (outputAudioContextRef st) (scriptProcessorRef
    st) (mediaStreamSourceRef st) (mediaStreamRef st)
    (currentInputTranscriptionRef st) (currentOutputTranscriptionRef st)
    (nextStartTimeRef st) (audioSourcesRef st) (closureStatus st)
    (nextSourceId st) (started st) (stopCalls st) (released st) (console st).
Definition set_sessionPromiseRef (v : option SessionPromise) (st : State) : State :=
  mkState (status st) (transcript st) (error st) v (inputAudioContextRef
    st) (outputAudioContextRef st) (scriptProcessorRef st)
    (mediaStreamSourceRef st) (mediaStreamRef st)
    (currentInputTranscriptionRef st) (currentOutputTranscriptionRef st)
    (nextStartTimeRef st) (audioSourcesRef st) (closureStatus st)
    (nextSourceId st) (started st) (stopCalls st) (released st) (console st).
Definition set_inputAudioContextRef (v : bool) (st : State) : State :=
  mkState (status st) (transcript st) (error st) (sessionPromiseRef st) v
    (outputAudioContextRef st) (scriptProcessorRef st) (mediaStreamSourceRef
    st) (mediaStreamRef st) (currentInputTranscriptionRef st)
    (currentOutputTranscriptionRef st) (nextStartTimeRef st)
    (audioSourcesRef st) (closureStatus st) (nextSourceId st) (started st)
    (stopCalls st) (released st) (console st).
Definition set_outputAudioContextRef (v : bool) (st : State) : State :=
  mkState (status st) (transcript st) (error st) (sessionPromiseRef st)
    (inputAudioContextRef st) v (scriptProcessorRef st)
    (mediaStreamSourceRef st) (mediaStreamRef st)
    (currentInputTranscriptionRef st) (currentOutputTranscriptionRef st)
    (nextStartTimeRef st) (audioSourcesRef st) (closureStatus st)
    (nextSourceId st) (started st) (stopCalls st) (released st) (console st).
Definition set_scriptProcessorRef (v : bool) (st : State) : State :=
  mkState (status st) (transcript st) (error st) (sessionPromiseRef st)
    (inputAudioContextRef st) (outputAudioContextRef st) v
    (mediaStreamSourceRef st) (mediaStreamRef st)
    (currentInputTranscriptionRef st) (currentOutputTranscriptionRef st)
    (nextStartTimeRef st) (audioSourcesRef st) (closureStatus st)
    (nextSourceId st) (started st) (stopCalls st) (released st) (console st).
Definition set_mediaStreamSourceRef (v : bool) (st : State) : State :=
  mkState (status st) (transcript st) (error st) (sessionPromiseRef st)
    (inputAudioContextRef st) (outputAudioContextRef st) (scriptProcessorRef
    st) v (mediaStreamRef st) (currentInputTranscriptionRef st)
    (currentOutputTranscriptionRef st) (nextStartTimeRef st)
    (audioSourcesRef st) (closureStatus st) (nextSourceId st) (started st)
    (stopCalls st) (released st) (console st).
Definition set_mediaStreamRef (v : bool) (st : State) : State :=
  mkState (status st) (transcript st) (error st) (sessionPromiseRef st)
    (inputAudioContextRef st) (outputAudioContextRef st) (scriptProcessorRef
    st) (mediaStreamSourceRef st) v (currentInputTranscriptionRef st)
    (currentOutputTranscriptionRef st) (nextStartTimeRef st)
    (audioSourcesRef st) (closureStatus st) (nextSourceId st) (started st)
    (stopCalls st) (released st) (console st).
Definition set_currentInputTranscriptionRef (v : list N) (st : State) : State :=
  mkState (status st) (transcript st) (error st) (sessionPromiseRef st)
    (inputAudioContextRef st) (outputAudioContextRef st) (scriptProcessorRef
    st) (mediaStreamSourceRef st) (mediaStreamRef st) v
    (currentOutputTranscriptionRef st) (nextStartTimeRef st)
    (audioSourcesRef st) (closureStatus st) (nextSourceId st) (started st)
    (stopCalls st) (released st) (console st).
Definition set_currentOutputTranscriptionRef (v : list N) (st : State) : State :=
  mkState (status st) (transcript st) (error st) (sessionPromiseRef st)
    (inputAudioContextRef st) (outputAudioContextRef st) (scriptProcessorRef
    st) (mediaStreamSourceRef st) (mediaStreamRef st)
    (currentInputTranscriptionRef st) v (nextStartTimeRef st)
    (audioSourcesRef st) (closureStatus st) (nextSourceId st) (started st)
    (stopCalls st) (released st) (console st).
Definition set_nextStartTimeRef (v : Q) (st : State) : State :=
  mkState (status st) (transcript st) (error st) (sessionPromiseRef st)
    (inputAudioContextRef st) (outputAudioContextRef st) (scriptProcessorRef
    st) (mediaStreamSourceRef st) (mediaStreamRef st)
    (currentInputTranscriptionRef st) (currentOutputTranscriptionRef st) v
    (audioSourcesRef st) (closureStatus st) (nextSourceId st) (started st)
    (stopCalls st) (released st) (console st).
Definition set_audioSourcesRef (v : gset nat) (st : State) : State :=
  mkState (status st) (transcript st) (error st) (sessionPromiseRef st)
    (inputAudioContextRef st) (outputAudioContextRef st) (scriptProcessorRef
    st) (mediaStreamSourceRef st) (mediaStreamRef st)
    (currentInputTranscriptionRef st) (currentOutputTranscriptionRef st)
    (nextStartTimeRef st) v (closureStatus st) (nextSourceId st) (started
    st) (stopCalls st) (released st) (console st).
Definition set_closureStatus (v : ConversationStatus) (st : State) : State :=
  mkState (status st) (transcript st) (error st) (sessionPromiseRef st)
    (inputAudioContextRef st) (outputAudioContextRef st) (scriptProcessorRef
    st) (mediaStreamSourceRef st) (mediaStreamRef st)
    (currentInputTranscriptionRef st) (currentOutputTranscriptionRef st)
    (nextStartTimeRef st) (audioSourcesRef st) v (nextSourceId st) (started
    st) (stopCalls st) (released st) (console st).
Definition set_nextSourceId (v : nat) (st : State) : State :=
  mkState (status st) (transcript st) (error st) (sessionPromiseRef st)
    (inputAudioContextRef st) (outputAudioContextRef st) (scriptProcessorRef
    st) (mediaStreamSourceRef st) (mediaStreamRef st)
    (currentInputTranscriptionRef st) (currentOutputTranscriptionRef st)
    (nextStartTimeRef st) (audioSourcesRef st) (closureStatus st) v (started
    st) (stopCalls st) (released st) (console st).
Definition set_started (v : list (nat * Q * Q)) (st : State) : State :=
  mkState (status st) (transcript st) (error st) (sessionPromiseRef st)
    (inputAudioContextRef st) (outputAudioContextRef st) (scriptProcessorRef
    st) (mediaStreamSourceRef st) (mediaStreamRef st)
    (currentInputTranscriptionRef st) (currentOutputTranscriptionRef st)
    (nextStartTimeRef st) (audioSourcesRef st) (closureStatus st)
    (nextSourceId st) v (stopCalls st) (released st) (console st).
Definition set_stopCalls (v : gset nat) (st : State) : State :=
  mkState (status st) (transcript st) (error st) (sessionPromiseRef st)
    (inputAudioContextRef st) (outputAudioContextRef st) (scriptProcessorRef
    st) (mediaStreamSourceRef st) (mediaStreamRef st)
    (currentInputTranscriptionRef st) (currentOutputTranscriptionRef st)
    (nextStartTimeRef st) (audioSourcesRef st) (closureStatus st)
    (nextSourceId st) (started st) v (released st) (console st).
Definition set_released (v : list Resource) (st : State) : State :=
  mkState (status st) (transcript st) (error st) (sessionPromiseRef st)
    (inputAudioContextRef st) (outputAudioContextRef st) (scriptProcessorRef
    st) (mediaStreamSourceRef st) (mediaStreamRef st)
    (currentInputTranscriptionRef st) (currentOutputTranscriptionRef st)
    (nextStartTimeRef st) (audioSourcesRef st) (closureStatus st)
    (nextSourceId st) (started st) (stopCalls st) v (console st).
Definition set_console (v : list string) (st : State) : State :=
  mkState (status st) (transcript st) (error st) (sessionPromiseRef st)
    (inputAudioContextRef st) (outputAudioContextRef st) (scriptProcessorRef
    st) (mediaStreamSourceRef st) (mediaStreamRef st)
    (currentInputTranscriptionRef st) (currentOutputTranscriptionRef st)
    (nextStartTimeRef st) (audioSourcesRef st) (closureStatus st)
    (nextSourceId st) (started st) (stopCalls st) (released st) v.

Definition initial : State :=
  mkState Idle [] None None false false false false false [] [] 0 ∅ Idle
          0%nat [] ∅ [] [].

(** *** Handlers: state, and exceptions *)

Inductive Completion (A : Type) :=
  | Normal (a : A)
  | Throw (e : string).
Arguments Normal {A} a.
Arguments Throw {A} e.

Definition M (A : Type) : Type := State -> Completion A * State.

#[export] Instance M_ret : MRet M := fun A a st => (Normal a, st).
#[export] Instance M_bind : MBind M := fun A B k m st =>
  match m st with
  | (Normal a, st') => k a st'
  | (Throw e, st') => (Throw e, st')
  end.
#[export] Instance M_throw : MThrow string M := fun A e st => (Throw e, st).

Definition get {A : Type} (f : State -> A) : M A := fun st => (Normal (f st), st).
Definition modify (f : State -> State) : M unit := fun st => (Normal tt, f st).
Definition when (b : bool) (m : M unit) : M unit := if b then m else mret tt.

(** [try { body } catch (e) { handler } finally { finalizer }]. *)
Definition try_catch_finally (body : M unit) (handler : string -> M unit)
    (finalizer : M unit) : M unit :=
  fun st =>
    match body st with
    | (Normal _, st') => finalizer st'
    | (Throw e, st') =>
        match handler e st' with
        | (Normal _, st'') => finalizer st''
        | (Throw e', st'') =>
            match finalizer st'' with
            | (Normal _, st3) => (Throw e', st3)
            | (Throw e3, st3) => (Throw e3, st3)
            end
        end
    end.

(** A call of an async function that is not awaited: what it throws is
    not seen by the caller. *)
Definition not_awaited (m : M unit) : M unit :=
  fun st => (Normal tt, snd (m st)).

Definition try_catch (body : M unit) (handler : string -> M unit) : M unit :=
  try_catch_finally body handler (mret tt).

Definition console_error (msg : string) : M unit :=
  modify (fun st => set_console (console st ++ [msg]) st).

Definition release (r : Resource) : M unit :=
  modify (fun st => set_released (released st ++ [r]) st).

(** [ref.current?.method()] on an audio ref. *)
Definition release_if (ref : State -> bool) (r : Resource) : M unit :=
  held ← get ref; when held (release r).

Definition stopAudioProcessing : M unit :=
  release_if mediaStreamRef MediaTracks;;
  release_if scriptProcessorRef ScriptProcessor;;
  release_if mediaStreamSourceRef MediaStreamSource;;
  release_if inputAudioContextRef InputAudioContext;;
  release_if outputAudioContextRef OutputAudioContext;;
  modify (set_scriptProcessorRef false);;
  modify (set_mediaStreamSourceRef false);;
  modify (set_inputAudioContextRef false);;
  modify (set_outputAudioContextRef false);;
  modify (set_mediaStreamRef false).

(** [await sessionPromiseRef.current]. *)
Definition await_session (p : SessionPromise) : M Session :=
  match p with
  | Fulfilled session => mret session
  | RejectedPromise reason => mthrow reason
  end.

Definition session_close (session : Session) : M unit :=
  if closeThrows session then mthrow "close failed"%string
  else release LiveSession.

(** [for (const source of audioSourcesRef.current.values()) source.stop();
    audioSourcesRef.current.clear(); nextStartTimeRef.current = 0]. *)
Definition stop_all_sources : M unit :=
  modify (fun st => set_stopCalls (stopCalls st ∪ audioSourcesRef st) st);;
  modify (set_audioSourcesRef ∅);;
  modify (set_nextStartTimeRef 0).

Definition stopConversation : M unit :=
  modify (set_status Stopped);;
  stopAudioProcessing;;
  p ← get sessionPromiseRef;
  match p with
  | Some promise =>
      try_catch_finally
        (session ← await_session promise; session_close session)
        (fun e => console_error "Error closing session:")
        (modify (set_sessionPromiseRef None))
  | None => mret tt
  end;;
  stop_all_sources.

(** [startConversation]; [microphone] tells whether [getUserMedia]
    resolves, [promise] is what [ai.live.connect] returns. *)
Definition startConversation (microphone : bool) (promise : SessionPromise) : M unit :=
  s ← get status;
  if ConversationStatus_eqb s Active || ConversationStatus_eqb s Connecting
  then mret tt
  else
    modify (set_status Connecting);;
    modify (set_error None);;
    modify (set_transcript []);;
    modify (set_currentInputTranscriptionRef []);;
    modify (set_currentOutputTranscriptionRef []);;
    try_catch
      (when (negb microphone) (mthrow "NotAllowedError"%string);;
       modify (set_mediaStreamRef true);;
       modify (set_inputAudioContextRef true);;
       modify (set_outputAudioContextRef true);;
       modify (set_closureStatus s);;
       modify (set_sessionPromiseRef (Some promise)))
      (fun e =>
         console_error "Failed to start conversation:";;
         modify (set_error (Some "Could not access microphone or start session."%string));;
         modify (set_status Error)).

(** *** The callbacks of the session *)

Definition onopen : M unit :=
  modify (set_status Active);;
  ctx ← get inputAudioContextRef;
  (* inputAudioContextRef.current!.createMediaStreamSource(stream) *)
  when (negb ctx) (mthrow "TypeError"%string);;
  modify (set_mediaStreamSourceRef true);;
  modify (set_scriptProcessorRef true).

(** A message of the server, as far as [onmessage] reads it. *)
Record Transcription := mkTranscription { ttext : option (list N) }.
Record Blob := mkBlob { bdata : option (list N) }.
Record Part := mkPart { inlineData : option Blob }.
Record Content := mkContent { parts : option (list Part) }.
Record ServerContent := mkServerContent {
  inputTranscription : option Transcription;
  outputTranscription : option Transcription;
  turnComplete : bool;
  modelTurn : option Content;
  interrupted : bool
}.
Record LiveServerMessage := mkMessage { serverContent : option ServerContent }.

(** The helpers of [utils] are not part of the sources at hand: the
    duration of the buffer that [decodeAudioData(decode(audioData), ...)]
    returns is left to the decoder. *)
Class AudioDecoder := { duration : list N -> Q }.

(** The entries that a turn adds to the transcript. *)
Definition newEntries (userInput modelOutput : list N) : list TranscriptEntry :=
  (if truthy userInput then [mkEntry User userInput] else [])
  ++ (if truthy modelOutput then [mkEntry Model modelOutput] else []).

(** [message.serverContent?.modelTurn?.parts[0]?.inlineData.data]. *)
Definition audioData_of (content : option ServerContent) : M (option (list N)) :=
  match content ≫= modelTurn with
  | None => mret None
  | Some turn =>
      match parts turn with
      | None => mthrow "TypeError"%string        (* undefined[0] *)
      | Some ps =>
          match ps !! 0%nat with
          | None => mret None
          | Some part =>
              match inlineData part with
              | None => mthrow "TypeError"%string  (* undefined.data *)
              | Some blob => mret (bdata blob)
              end
          end
      end
  end.

Definition schedule `{AudioDecoder} (audioData : list N) (currentTime : Q) : M unit :=
  modify (fun st =>
            set_nextStartTimeRef (Qmax (nextStartTimeRef st) currentTime) st);;
  source ← get nextSourceId;
  modify (set_nextSourceId (S source));;
  modify (fun st =>
            set_started (started st ++ [(source, nextStartTimeRef st, duration audioData)]) st);;
  modify (fun st =>
            set_nextStartTimeRef (nextStartTimeRef st + duration audioData) st);;
  modify (fun st => set_audioSourcesRef (audioSourcesRef st ∪ {[source]}) st).

(** [onmessage], part one: // Handle transcription. *)
Definition handle_transcription (content : option ServerContent) : M unit :=
  match content ≫= inputTranscription with
  | Some t =>
      modify (fun st =>
        set_currentInputTranscriptionRef
          (append_value (currentInputTranscriptionRef st) (ttext t)) st)
  | None => mret tt
  end;;
  match content ≫= outputTranscription with
  | Some t =>
      modify (fun st =>
        set_currentOutputTranscriptionRef
          (append_value (currentOutputTranscriptionRef st) (ttext t)) st)
  | None => mret tt
  end;;
  when (default false (turnComplete <$> content))
    (userInput ← get (fun st => trim (currentInputTranscriptionRef st));
     modelOutput ← get (fun st => trim (currentOutputTranscriptionRef st));
     when (0 <? length (newEntries userInput modelOutput))%nat
       (modify (fun st =>
          set_transcript (transcript st ++ newEntries userInput modelOutput) st));;
     modify (set_currentInputTranscriptionRef []);;
     modify (set_currentOutputTranscriptionRef [])).

(** [onmessage], part two: // Handle audio. *)
Definition handle_audio `{AudioDecoder} (content : option ServerContent)
    (currentTime : Q) : M unit :=
  audioData ← audioData_of content;
  ctx ← get outputAudioContextRef;
  match audioData with
  | Some audioData =>
      when (truthy audioData && ctx) (schedule audioData currentTime)
  | None => mret tt
  end.

(** [onmessage]; [currentTime] is the clock of the output audio context
    when the message is handled.  The handler runs to its end before the
    next event. *)
Definition onmessage `{AudioDecoder} (message : LiveServerMessage)
    (currentTime : Q) : M unit :=
  let content := serverContent message in
  handle_transcription content;;
  handle_audio content currentTime;;
  when (default false (interrupted <$> content)) stop_all_sources.

Definition onerror : M unit :=
  console_error "Session error:";;
  modify (set_error (Some "An error occurred with the conversation."%string));;
  modify (set_status Error);;
  not_awaited stopConversation.

Definition onclose : M unit :=
  captured ← get closureStatus;
  when (negb (ConversationStatus_eqb captured Stopped))
    (modify (set_status Idle);; stopAudioProcessing).

(** The ['ended'] listener of a source. *)
Definition onended (source : nat) : M unit :=
  modify (fun st => set_audioSourcesRef (audioSourcesRef st ∖ {[source]}) st).

(** *** Runs *)

Inductive Event :=
  | StartConversation (microphone : bool) (promise : SessionPromise)
  | StopConversation
  | OnOpen
  | OnMessage (message : LiveServerMessage) (currentTime : Q)
  | OnError
  | OnClose
  | Ended (source : nat).

Definition handler `{AudioDecoder} (ev : Event) : M unit :=
  match ev with
  | StartConversation microphone promise => startConversation microphone promise
  | StopConversation => stopConversation
  | OnOpen => onopen
  | OnMessage message currentTime => onmessage message currentTime
  | OnError => onerror
  | OnClose => onclose
  | Ended source => onended source
  end.

(** The state after an event; an exception that leaves a handler is not
    caught by the hook. *)
Definition step `{AudioDecoder} (st : State) (ev : Event) : State :=
  snd (handler ev st).

Definition run `{AudioDecoder} (evs : list Event) (st : State) : State :=
  foldl step st evs.

(** Messages with one field. *)
Definition inputMessage (s : list N) : LiveServerMessage :=
  mkMessage (Some (mkServerContent (Some (mkTranscription (Some s))) None
                                   false None false)).
Definition outputMessage (s : list N) : LiveServerMessage :=
  mkMessage (Some (mkServerContent None (Some (mkTranscription (Some s)))
                                   false None false)).
Definition turnCompleteMessage : LiveServerMessage :=
  mkMessage (Some (mkServerContent None None true None false)).
Definition audioMessage (audioData : list N) : LiveServerMessage :=
  mkMessage (Some (mkServerContent None None false
    (Some (mkContent (Some [mkPart (Some (mkBlob (Some audioData)))]))) false)).

(** A decoder for examples: a tenth of a second for each code unit. *)
#[local] Instance tenths : AudioDecoder :=
  {| duration audioData := Z.of_nat (length audioData) # 10 |}.

End LiveConversation.

(** ** The masking canvas in use *)

Module MaskingCanvasSession.
Import Canvas2D MaskingCanvas.

(** What can happen to a mounted component: a mouse event on the drawing
    canvas, a call through the imperative handle ([undo], [redo],
    [clearMask]), or a new layout (image load or window resize) with the
    display size it computes. *)
Inductive Op :=
  | Mouse (ev : Event)
  | Undo
  | Redo
  | ClearMask
  | Layout (drawWidth drawHeight : nat).

Definition apply `{Rasterizer} (st : State) (op : Op) : State :=
  match op with
  | Mouse ev => handle ev st
  | Undo => undo st
  | Redo => redo st
  | ClearMask => clearMask st
  | Layout drawWidth drawHeight => MaskingCanvas.drawImage drawWidth drawHeight st
  end.

Definition session `{Rasterizer} (ops : list Op) (st : State) : State :=
  foldl apply st ops.

End MaskingCanvasSession.

(** ** The image editor: uploading *)

Module Upload.
Import Generation.
Local Open Scope string_scope.

(** A chosen [File]: its name, its type, and what [fileToBase64] (a helper
    of [utils], not among the sources at hand) settles to for it: the
    base64 data, or a rejection. *)
Record File := mkFile {
  name : string;
  type : string;
  read : Thrown + string
}.

(** The state of the editor that uploading writes; [maskingCanvasRef] is
    the mounted masking canvas, if there is one. *)
Record State := mkState {
  originalImages : list OriginalImage;
  generatedImages : list GeneratedImage;
  isLoading : bool;
  error : option string;
  prompt : string;
  canUndo : bool;
  canRedo : bool;
  maskingCanvasRef : option MaskingCanvas.State
}.

Definition setError (e : option string) (st : State) : State :=
  mkState (originalImages st) (generatedImages st) (isLoading st) e (prompt st)
          (canUndo st) (canRedo st) (maskingCanvasRef st).
Definition setIsLoading (b : bool) (st : State) : State :=
  mkState (originalImages st) (generatedImages st) b (error st) (prompt st)
          (canUndo st) (canRedo st) (maskingCanvasRef st).
Definition setOriginalImages (l : list OriginalImage) (st : State) : State :=
  mkState l (generatedImages st) (isLoading st) (error st) (prompt st)
          (canUndo st) (canRedo st) (maskingCanvasRef st).


(** [handleReset] of unnamed/part_003, which also resets the two flags. *)
Definition handleReset_003 (st : State) : State :=
  mkState [] [] (isLoading st) None "" false false
          (MaskingCanvas.clearMask <$> maskingCanvasRef st).

(** The image made of the [index]-th file: [now index] is what [Date.now()]
    gives once that file has been read. *)
Definition uploaded (now : nat -> nat) (index : nat) (file : File)
    (base64Data : string) : OriginalImage :=
  mkOriginal (now index + index)
             ("data:" ++ type file ++ ";base64," ++ base64Data)
             (name file) (type file).

(** [await Promise.all(filesToProcess.map(async (file, index) => ...))]:
    every image, or the rejection of a file that cannot be read.  Which of
    several rejections settles the promise is a matter of timing; the
    first in the list is taken here, and nothing below depends on it. *)
Fixpoint readAll (now : nat -> nat) (index : nat) (files : list File)
    : Thrown + list OriginalImage :=
  match files with
  | [] => inr []
  | file :: rest =>
      match read file, readAll now (S index) rest with
      | inl e, _ => inl e
      | inr _, inl e => inl e
      | inr base64Data, inr images =>
          inr (uploaded now index file base64Data :: images)
      end
  end.


(** [file.type.startsWith('image/')]. *)
Definition isImage (file : File) : bool := String.prefix "image/" (type file).

(** [processFiles] of unnamed/part_003. *)
Definition processFiles (tool : Tool) (now : nat -> nat)
    (files : list File) (st : State) : State :=
  match files with
  | [] => st
  | _ :: _ =>
      match List.filter isImage files with
      | [] =>
          setError
            (Some "No valid image files provided. Please use PNG, JPG, or WEBP.") st
      | (first :: _) as validFiles =>
          let st := setIsLoading true (handleReset_003 st) in
          let filesToProcess := if isBatchMode tool then validFiles else [first] in
          let st :=
            match readAll now 0 filesToProcess with
            | inr newOriginalImages => setOriginalImages newOriginalImages st
            | inl (ErrorObject message) => setError (Some message) st
            | inl (OtherValue _) => setError (Some "Failed to read file(s).") st
            end in
          setIsLoading false st
      end
  end.

End Upload.

(** *** The first version of the editor (unnamed/part_004) *)

Module ImageEditorPart004.
Import Generation.
Local Open Scope string_scope.

Definition fullPrompt (tool : Tool) (prompt : string) : string :=
  basePrompt tool
  ++ (if String.eqb prompt "" then "" else " User instruction: " ++ prompt).

Definition parts_of (tool : Tool) (prompt : string) (image : OriginalImage)
    : list Part :=
  [imagePart image; TextPart (fullPrompt tool prompt)].

Fixpoint generate_loop (tool : Tool) (prompt : string) (ai : Remote)
    (originalImages : list OriginalImage)
    (processedImages : list GeneratedImage) (st : State)
    : State * option Thrown :=
  match originalImages with
  | [] => (st, None)
  | image :: rest =>
      match generateContent ai (parts_of tool prompt image) st with
      | (Rejects e, st) => (st, Some e)
      | (Returns (Some (Some inlineData)), st) =>
          let processedImages :=
            (processedImages ++ [processed image inlineData])%list in
          generate_loop tool prompt ai rest processedImages
            (setGeneratedImages processedImages st)
      | (Returns _, st) =>
          (* console.error(...) and on to the next image *)
          generate_loop tool prompt ai rest processedImages st
      end
  end.

Definition handleGenerate (tool : Tool) (prompt : string) (ai : Remote)
    (originalImages : list OriginalImage) (st : State) : State :=
  if (length originalImages =? 0)%nat
  then Generation.setError (Some "Please upload at least one image.") st
  else
    let st := setGeneratedImages [] (Generation.setError None (setIsLoading true st)) in
    let st :=
      match generate_loop tool prompt ai originalImages [] st with
      | (st, None) => st
      | (st, Some _) =>
          Generation.setError
            (Some "An error occurred during generation. Please check the console for details.")
            st
      end in
    setIsLoading false st.

End ImageEditorPart004.

(* ===================================================================== *)
(** * Part II: the theorems *)
(* ===================================================================== *)

(** ** Compositing arithmetic *)

Module Canvas2DFacts.
Import Canvas2D.

Lemma div_round_mul (m d : Z) : 0 < d -> div_round (m * d) d = m.
Proof.
  intros Hd. unfold div_round. symmetry.
  apply Z.div_unique with (r := d); lia.
Qed.

Lemma mul255_255_r (a : Z) : mul255 a 255 = a.
Proof. unfold mul255. apply div_round_mul. lia. Qed.

Lemma mul255_255_l (a : Z) : mul255 255 a = a.
Proof. unfold mul255. rewrite Z.mul_comm. apply div_round_mul. lia. Qed.

Lemma mul255_0_r (a : Z) : mul255 a 0 = 0.
Proof. unfold mul255. rewrite Z.mul_0_r. reflexivity. Qed.

Lemma mul255_0_l (a : Z) : mul255 0 a = 0.
Proof. unfold mul255. rewrite Z.mul_0_l. reflexivity. Qed.

Lemma unpremul_full (a : Z) : a <> 0 -> unpremul a a = 255.
Proof.
  intros Ha. unfold unpremul. destruct (Z.eqb_spec a 0) as [|_]; [contradiction|].
  assert (div_round (a * 255) a = 255) as ->; [|reflexivity].
  unfold div_round. symmetry.
  destruct (Z_lt_le_dec 0 a).
  - apply Z.div_unique with (r := a); lia.
  - apply Z.div_unique with (r := a); lia.
Qed.

Lemma unpremul_opaque (c : Z) : unpremul c 255 = Z.min 255 c.
Proof.
  unfold unpremul. simpl. rewrite div_round_mul by lia. reflexivity.
Qed.

(** A grey level, fully opaque. *)
Definition gray (v : Z) : RGBA := mkRGBA v v v 255.

(** Drawing a pixel on a transparent canvas keeps its alpha. *)
Lemma source_over_transparent_alpha (s : RGBA) :
  alpha (composite SourceOver s transparent) = Z.min 255 (alpha s).
Proof.
  unfold composite; simpl. rewrite mul255_255_r, mul255_0_l, Z.add_0_r. reflexivity.
Qed.

(** 'source-in' with white keeps the alpha of the backdrop: the pixel
    turns white, as opaque as it was. *)
Lemma source_in_white (b : RGBA) :
  alpha b <= 255 ->
  composite SourceIn white b =
    if alpha b =? 0 then transparent else mkRGBA 255 255 255 (alpha b).
Proof.
  intros Hb. unfold composite; simpl.
  rewrite !mul255_0_r, !Z.add_0_r, !mul255_255_l.
  rewrite Z.min_r by lia.
  destruct (Z.eqb_spec (alpha b) 0) as [E|E].
  - rewrite E. reflexivity.
  - rewrite unpremul_full by assumption. reflexivity.
Qed.

(** 'destination-over' with black behind a white pixel of alpha [a] gives
    the opaque grey of level [a]. *)
Lemma destination_over_black (a : Z) :
  a <= 255 ->
  composite DestinationOver black
    (if a =? 0 then transparent else mkRGBA 255 255 255 a) = gray a.
Proof.
  intros Ha. unfold composite, gray.
  destruct (Z.eqb_spec a 0) as [E|E]; simpl.
  - subst a. reflexivity.
  - rewrite !mul255_0_l, !mul255_255_r, !mul255_255_l.
    replace (255 - a + a) with 255 by lia.
    rewrite Z.min_id, unpremul_opaque, Z.add_0_l, Z.min_r by lia. reflexivity.
Qed.

(** The three steps of the mask export on one pixel. *)
Lemma export_pixel (s : RGBA) :
  composite DestinationOver black
    (composite SourceIn white (composite SourceOver s transparent))
  = gray (Z.min 255 (alpha s)).
Proof.
  rewrite source_in_white by (rewrite source_over_transparent_alpha; lia).
  rewrite source_over_transparent_alpha.
  apply destination_over_black. lia.
Qed.

End Canvas2DFacts.

(** ** The history stack of the masking canvas *)

Module MaskingCanvasFacts.
Import Canvas2D Canvas2DFacts MaskingCanvas.

(** A canvas, or a snapshot, of [w] by [h] pixels. *)
Definition shape (w h : nat) (c : Canvas) : Prop :=
  cwidth c = w /\ cheight c = h /\ length (bitmap c) = (w * h)%nat.

Definition shaped (w h : nat) (img : ImageData) : Prop :=
  width img = w /\ height img = h /\ length (data img) = (w * h)%nat.

Lemma shape_createCanvas w h : shape w h (createCanvas w h).
Proof. repeat split. simpl. apply length_replicate. Qed.

Lemma shape_paint op src w h c : shape w h c -> shape w h (paint op src c).
Proof.
  intros (Hw & Hh & Hl). repeat split; simpl; try assumption.
  rewrite length_imap. assumption.
Qed.

Lemma shaped_getImageData w h c : shape w h c -> shaped w h (getImageData c).
Proof. intros H. exact H. Qed.

Lemma getImageData_inj c c' : getImageData c = getImageData c' -> c = c'.
Proof. destruct c, c'. unfold getImageData; simpl. congruence. Qed.

Lemma clearRect_all_shape w h c :
  cwidth c = w -> cheight c = h -> clearRect_all c = createCanvas w h.
Proof. intros <- <-. reflexivity. Qed.

(** Restoring a snapshot of the size of the canvas gives back, pixel for
    pixel, the canvas the snapshot was taken from. *)
Lemma putImageData_same_size w h img c :
  shaped w h img -> shape w h c ->
  putImageData img c = mkCanvas w h (data img).
Proof.
  intros (Hiw & Hih & Hil) (Hw & Hh & Hl).
  unfold putImageData. rewrite Hw, Hh, Hiw, Hih. f_equal.
  apply list_eq. intros i. rewrite list_lookup_imap.
  destruct (bitmap c !! i) as [old|] eqn:E; simpl.
  - apply lookup_lt_Some in E. rewrite Hl in E.
    assert (w <> 0)%nat as Hw0 by (intros ->; simpl in E; lia).
    assert (i mod w < w)%nat as Hx by (apply Nat.mod_upper_bound; assumption).
    assert (i / w < h)%nat as Hy by (apply Nat.Div0.div_lt_upper_bound; lia).
    apply Nat.ltb_lt in Hx, Hy. rewrite Hx, Hy. simpl.
    replace (i / w * w + i mod w)%nat with i
      by (rewrite (Nat.div_mod_eq i w) at 1; lia).
    destruct (data img !! i) as [p|] eqn:E'; [reflexivity|].
    apply lookup_ge_None in E'. lia.
  - apply lookup_ge_None in E. symmetry. apply lookup_ge_None. lia.
Qed.




(** *** Strokes *)

Section Strokes.
Context `{Rasterizer}.

(** The state in which a stroke leaves the component just before its
    [saveState]: only the drawing canvas differs. *)
Definition stroke_drawn (c' : Canvas) (st : State) : State :=
  mkState (Some c') (imageRef st) false None (historyRef st)
          (historyIndexRef st) (brushSize st) (boundingClientRect st)
          (onHistoryChange st).

Variable P : Canvas -> Prop.
Hypothesis P_paint : forall op src c, P c -> P (paint op src c).

Lemma moves_then_up (ms : list Point) : forall st c,
  drawingCanvasRef st = Some c -> P c -> isDrawing st = true ->
  exists c', P c'
    /\ run (map MouseMove ms ++ [MouseUp]) st = saveState (stroke_drawn c' st).
Proof using P_paint.
  induction ms as [|m ms IH]; intros st c Hc Hs Hd.
  - exists c. split; [assumption|].
    destruct st; simpl in *. subst. reflexivity.
  - destruct st as [dc im dr lp hs ix bs rc lg]; simpl in *. subst.
    unfold run; simpl. unfold handleMouseMove, getMousePos, drawOnCanvas; simpl.
    set (c1 := match lp with Some last => _ | None => _ end).
    assert (P c1) as Hs1 by (subst c1; destruct lp; apply P_paint, Hs).
    destruct (IH (mkState (Some c1) im true
                    (Some (fst m - fst rc, snd m - snd rc)) hs ix bs rc lg) c1
                 eq_refl Hs1 eq_refl) as (c' & Hs' & Hrun).
    exists c'. split; [assumption|]. exact Hrun.
Qed.

(** A completed stroke paints on the drawing canvas and then saves. *)
Lemma stroke_then_save (s : Stroke) (st : State) (c : Canvas) :
  drawingCanvasRef st = Some c -> P c ->
  exists c', P c'
    /\ run (stroke_events s) st = saveState (stroke_drawn c' st).
Proof using P_paint.
  intros Hc Hs.
  destruct st as [dc im dr lp hs ix bs rc lg]; simpl in *. subst.
  unfold stroke_events, run; simpl.
  unfold handleMouseDown, getMousePos, drawOnCanvas; simpl.
  set (c1 := paint _ _ c).
  assert (P c1) as Hs1 by (apply P_paint, Hs).
  destruct (moves_then_up (moves s)
              (mkState (Some c1) im true
                 (Some (fst (start s) - fst rc, snd (start s) - snd rc))
                 hs ix bs rc lg) c1 eq_refl Hs1 eq_refl) as (c' & Hs' & Hrun).
  exists c'. split; [assumption|]. exact Hrun.
Qed.

End Strokes.

(** *** Saving, undoing, redoing *)

Lemma saveState_fields (st : State) (c : Canvas) :
  drawingCanvasRef st = Some c -> -1 <= historyIndexRef st ->
  historyRef (saveState st)
    = take (Z.to_nat (historyIndexRef st + 1)) (historyRef st) ++ [getImageData c]
  /\ historyIndexRef (saveState st) = historyIndexRef st + 1
  /\ drawingCanvasRef (saveState st) = Some c
  /\ imageRef (saveState st) = imageRef st.
Proof.
  intros Hc Hi. unfold saveState. rewrite Hc. simpl.
  split; [|repeat split; auto]. f_equal.
  destruct (Z.ltb_spec (historyIndexRef st) (len (historyRef st) - 1)) as [Hlt|Hge].
  - unfold splice_from. destruct (Z.ltb_spec (historyIndexRef st + 1) 0); [lia|].
    rewrite Z.min_l by lia. reflexivity.
  - symmetry. apply take_ge. unfold len in Hge. lia.
Qed.


(** After a save no entry lies beyond the cursor; the cursor is on the
    last entry when it was inside the stack before. *)
Lemma saveState_at_tip (st : State) (c : Canvas) :
  drawingCanvasRef st = Some c -> -1 <= historyIndexRef st ->
  len (historyRef (saveState st)) - 1 <= historyIndexRef (saveState st)
  /\ (historyIndexRef st < len (historyRef st) ->
      historyIndexRef (saveState st) = len (historyRef (saveState st)) - 1).
Proof.
  intros Hc Hi.
  destruct (saveState_fields st c Hc Hi) as (Hh & Hx & _).
  rewrite Hh, Hx. unfold len. rewrite length_app, length_take. simpl.
  split; [lia|intros Hlt; lia].
Qed.

Lemma redo_at_tip (st : State) :
  len (historyRef st) - 1 <= historyIndexRef st -> redo st = st.
Proof.
  intros Hge. unfold redo.
  destruct (Z.ltb_spec (historyIndexRef st) (len (historyRef st) - 1)); [lia|reflexivity].
Qed.

Lemma redo_iter_at_tip (m : nat) (st : State) :
  len (historyRef st) - 1 <= historyIndexRef st -> Nat.iter m redo st = st.
Proof.
  intros Hge. induction m as [|m IH]; simpl; [reflexivity|].
  rewrite IH. apply redo_at_tip, Hge.
Qed.

Lemma restoreState_canvas (st : State) (c : Canvas) :
  drawingCanvasRef st = Some c ->
  exists c', drawingCanvasRef (restoreState st) = Some c'
    /\ historyRef (restoreState st) = historyRef st
    /\ historyIndexRef (restoreState st) = historyIndexRef st
    /\ imageRef (restoreState st) = imageRef st.
Proof.
  intros Hc. unfold restoreState. rewrite Hc.
  destruct (0 <=? historyIndexRef st);
    [destruct (at_index (historyRef st) (historyIndexRef st))|]; simpl; eauto.
Qed.

Lemma undo_fields (st : State) (c : Canvas) :
  drawingCanvasRef st = Some c ->
  exists c', drawingCanvasRef (undo st) = Some c'
    /\ historyRef (undo st) = historyRef st
    /\ historyIndexRef (undo st)
        = (if 0 <? historyIndexRef st then historyIndexRef st - 1 else historyIndexRef st)
    /\ imageRef (undo st) = imageRef st.
Proof.
  intros Hc. unfold undo. destruct (0 <? historyIndexRef st); [|eauto].
  destruct (restoreState_canvas
              (set_history (historyRef st) (historyIndexRef st - 1) st) c Hc)
    as (c' & H1 & H2 & H3 & H4).
  exists c'. repeat split; assumption.
Qed.

Lemma undo_iter_fields (k : nat) (st : State) (c : Canvas) :
  drawingCanvasRef st = Some c -> -1 <= historyIndexRef st ->
  exists c', drawingCanvasRef (Nat.iter k undo st) = Some c'
    /\ historyRef (Nat.iter k undo st) = historyRef st
    /\ -1 <= historyIndexRef (Nat.iter k undo st) <= historyIndexRef st
    /\ (Z.of_nat k <= historyIndexRef st ->
        historyIndexRef (Nat.iter k undo st) = historyIndexRef st - Z.of_nat k).
Proof.
  intros Hc Hi. induction k as [|k IH].
  - exists c. simpl. repeat split; try assumption; lia.
  - destruct IH as (c1 & H1 & H2 & H3 & H4).
    destruct (undo_fields (Nat.iter k undo st) c1 H1) as (c2 & G1 & G2 & G3 & _).
    exists c2. simpl. rewrite G1, G2, G3, H2. repeat split.
    + destruct (Z.ltb_spec 0 (historyIndexRef (Nat.iter k undo st))); lia.
    + destruct (Z.ltb_spec 0 (historyIndexRef (Nat.iter k undo st))); lia.
    + intros Hk. rewrite H4 by lia.
      destruct (Z.ltb_spec 0 (historyIndexRef st - Z.of_nat k)); lia.
Qed.

(** C8: a stroke committed after [k] undos keeps the entries up to the
    cursor, appends the snapshot of the canvas and leaves the cursor on
    it: the entries that could be redone are gone (when the [k] undos all
    took effect the stack has [cursor - k + 2] entries), and any number of
    [redo] calls afterwards changes nothing at all, neither the cursor nor
    the mask layer. *)
Theorem stroke_after_undo_discards_redo `{Rasterizer}
    (st : State) (c : Canvas) (k : nat) (s : Stroke) :
  drawingCanvasRef st = Some c ->
  -1 <= historyIndexRef st < len (historyRef st) ->
  let undone := Nat.iter k undo st in
  let st' := run (stroke_events s) undone in
  (exists c', drawingCanvasRef st' = Some c'
     /\ historyRef st'
        = take (Z.to_nat (historyIndexRef undone + 1)) (historyRef st)
          ++ [getImageData c'])
  /\ historyIndexRef st' = len (historyRef st') - 1
  /\ (Z.of_nat k <= historyIndexRef st ->
      len (historyRef st') = historyIndexRef st - Z.of_nat k + 2)
  /\ forall m, Nat.iter m redo st' = st'.
Proof.
  intros Hc Hi undone st'.
  destruct (undo_iter_fields k st c Hc ltac:(lia)) as (c1 & U1 & U2 & U3 & U4).
  fold undone in U1, U2, U3, U4.
  destruct (stroke_then_save (fun _ => True) ltac:(trivial) s undone c1 U1 I)
    as (c' & _ & Hrun).
  fold st' in Hrun.
  assert (historyIndexRef undone < len (historyRef undone)) as Hlt
    by (rewrite U2; lia).
  destruct U3 as (U3 & _).
  destruct (saveState_fields (stroke_drawn c' undone) c' eq_refl U3)
    as (S1 & S2 & S3 & _).
  destruct (saveState_at_tip (stroke_drawn c' undone) c' eq_refl U3) as (T1 & T2).
  rewrite <- Hrun in S1, S2, S3, T1, T2. simpl in S1, S2, T2.
  rewrite U2 in S1.
  repeat split.
  - exists c'. split; assumption.
  - apply T2, Hlt.
  - intros Hk. rewrite S1. unfold len. rewrite length_app, length_take. simpl.
    rewrite (U4 Hk). unfold len in Hi. lia.
  - intros m. apply redo_iter_at_tip, T1.
Qed.

(** Three snapshots of a 2 by 2 canvas, the cursor on the last. *)
Definition three_entries : State :=
  mkState (Some (createCanvas 2 2)) (Some (mkImage 4 4)) false None
    [getImageData (createCanvas 2 2);
     getImageData (fillRect_all SourceOver red500 (createCanvas 2 2));
     getImageData (createCanvas 2 2)]
    2 6 (0, 0) [].

Lemma stroke_after_undo_discards_redo_witness :
  let st' := run (H := hardEdge) (stroke_events (mkStroke (1, 1) [(0, 1)]))
                 (Nat.iter 1%nat undo three_entries) in
  Nat.iter 2%nat redo st' = st'.
Proof.
  refine (proj2 (proj2 (proj2
    (stroke_after_undo_discards_redo (H := hardEdge) three_entries
       (createCanvas 2 2) 1%nat (mkStroke (1, 1) [(0, 1)]) eq_refl _))) 2%nat).
  unfold len; simpl; lia.
Defined.

(** *** The stack as a list of canvases *)








Section StrokesOnTheStack.
Context `{Rasterizer}.



(** *** The exported mask *)

(** The pixels of the exported mask: at each position of the original
    image, the opaque grey whose level is the alpha of the scaled stroke
    layer there. *)
Definition mask_pixels (drawingCanvas : Canvas) (w h : nat) : list RGBA :=
  (fun i => gray (Z.min 255 (alpha (resample drawingCanvas w h (i mod w) (i / w))%nat)))
    <$> seq 0 (w * h).

Lemma getMaskAsBase64_pixels (st : State) (drawingCanvas : Canvas) (img : HTMLImage) :
  drawingCanvasRef st = Some drawingCanvas -> imageRef st = Some img ->
  cwidth drawingCanvas <> 0%nat -> cheight drawingCanvas <> 0%nat ->
  getMaskAsBase64 st
  = Resolved (mkImageData (naturalWidth img) (naturalHeight img)
               (mask_pixels drawingCanvas (naturalWidth img) (naturalHeight img))).
Proof.
  intros Hc Hi Hw Hh. unfold getMaskAsBase64, Canvas2D.drawImage.
  rewrite Hc, Hi.
  apply Nat.eqb_neq in Hw, Hh. rewrite Hw, Hh. simpl.
  unfold getImageData; simpl. do 2 f_equal.
  apply list_eq. intros i. unfold mask_pixels.
  rewrite !list_lookup_imap, list_lookup_fmap.
  destruct (decide (i < naturalWidth img * naturalHeight img)%nat) as [Hlt|Hge].
  - rewrite lookup_replicate_2 by assumption.
    rewrite lookup_seq_lt by assumption. simpl.
    rewrite export_pixel. reflexivity.
  - rewrite (proj1 (lookup_replicate_None _ _ _)) by lia.
    rewrite lookup_seq_ge by lia. reflexivity.
Qed.



End StrokesOnTheStack.



(** *** The colours of the exported mask *)

(** The exported mask has the size of the original image and is opaque
    everywhere; the pixel at index [i] is the grey whose level is the
    alpha of the scaled stroke layer at that position. *)
Lemma getMaskAsBase64_native_size `{Rasterizer}
    (st : State) (drawingCanvas : Canvas) (img : HTMLImage) :
  drawingCanvasRef st = Some drawingCanvas -> imageRef st = Some img ->
  cwidth drawingCanvas <> 0%nat -> cheight drawingCanvas <> 0%nat ->
  exists m, getMaskAsBase64 st = Resolved m
    /\ width m = naturalWidth img /\ height m = naturalHeight img
    /\ length (data m) = (naturalWidth img * naturalHeight img)%nat
    /\ forall i p, data m !! i = Some p ->
         p = gray (Z.min 255 (alpha (resample drawingCanvas
                                      (naturalWidth img) (naturalHeight img)
                                      (i mod naturalWidth img)
                                      (i / naturalWidth img))%nat)).
Proof.
  intros Hc Hi Hw Hh. eexists. split.
  - apply (getMaskAsBase64_pixels st drawingCanvas img); assumption.
  - simpl. repeat split.
    + unfold mask_pixels. rewrite length_fmap, length_seq. reflexivity.
    + intros i p Hp. unfold mask_pixels in Hp.
      rewrite list_lookup_fmap in Hp.
      destruct (seq 0 _ !! i) as [j|] eqn:E; [|discriminate].
      apply lookup_seq in E. destruct E as [-> _]. simpl in Hp. congruence.
Qed.


End MaskingCanvasFacts.

(** ** The batch loop of the image editor *)

Module GenerationFacts.
Import Generation.

(** The request sent for [image] when the mask, if one is needed, is
    available. *)
Definition parts_for (tool : Tool) (prompt : string)
    (mask : option (MaskingCanvas.Settled string)) (image : OriginalImage)
    : list Part :=
  match request_parts tool prompt mask image with
  | inr parts => parts
  | inl _ => []
  end.

(** The mask is not needed, or there is no masking canvas, or the canvas
    delivers its mask. *)
Definition mask_ok (tool : Tool) (mask : option (MaskingCanvas.Settled string)) : Prop :=
  forall reason,
    (if requiresMask tool then mask else None) <> Some (MaskingCanvas.Rejected reason).

(** The remote call resolves, with an image or without. *)
Definition resolves (ai : Remote) : Prop :=
  forall n parts, exists firstPart, ai n parts = Returns firstPart.







Local Open Scope string_scope.







End GenerationFacts.

(** ** Trimming *)

Module JSStringFacts.
Import JSString.

Definition blank (s : list N) : bool := forallb is_white_space s.

Lemma trimStart_blank (s : list N) : blank s = true -> trimStart s = [].
Proof.
  induction s as [|c s IH]; simpl; [reflexivity|].
  intros Hb. apply andb_prop in Hb. destruct Hb as [-> Hs]. apply IH, Hs.
Qed.

Lemma trimStart_nil (s : list N) : trimStart s = [] -> blank s = true.
Proof.
  induction s as [|c s IH]; simpl; [reflexivity|].
  destruct (is_white_space c); [intros Hs; apply IH, Hs|discriminate].
Qed.

(** What [trimStart] leaves starts with a code unit that is not white
    space, and what it removes is white space. *)
Lemma trimStart_split (s : list N) :
  exists pre, s = pre ++ trimStart s /\ blank pre = true
    /\ match trimStart s with c :: _ => is_white_space c = false | [] => True end.
Proof.
  induction s as [|c s (pre & Hs & Hpre & Hhd)]; simpl.
  - exists []. repeat split.
  - destruct (is_white_space c) eqn:E.
    + exists (c :: pre). simpl. rewrite E, Hpre. repeat split; [congruence|exact Hhd].
    + exists []. repeat split. exact E.
Qed.

Lemma blank_app (s t : list N) : blank (s ++ t) = blank s && blank t.
Proof. apply forallb_app. Qed.

Lemma blank_rev (s : list N) : blank (rev s) = blank s.
Proof.
  induction s as [|c s IH]; simpl; [reflexivity|].
  rewrite blank_app, IH. simpl. rewrite andb_true_r. apply andb_comm.
Qed.

Lemma trimEnd_split (s : list N) :
  exists post, s = trimEnd s ++ post /\ blank post = true
    /\ match rev (trimEnd s) with c :: _ => is_white_space c = false | [] => True end.
Proof.
  unfold trimEnd. destruct (trimStart_split (rev s)) as (pre & Hs & Hpre & Hhd).
  exists (rev pre). rewrite rev_involutive. repeat split.
  - rewrite <- rev_app_distr, <- Hs, rev_involutive. reflexivity.
  - rewrite blank_rev. exact Hpre.
  - exact Hhd.
Qed.

(** Trimming the end of a string that does not start with white space
    keeps its first code unit. *)
Lemma trimEnd_keeps_head (c : N) (s : list N) :
  is_white_space c = false -> exists r, trimEnd (c :: s) = c :: r.
Proof.
  intros Hc. unfold trimEnd. simpl.
  destruct (trimStart_split (rev s ++ [c])) as (pre & Hs & Hpre & _).
  assert (exists u, trimStart (rev s ++ [c]) = u ++ [c]) as [u Hu].
  { induction (trimStart (rev s ++ [c])) as [|x l _] using rev_ind.
    - rewrite app_nil_r in Hs. rewrite <- Hs, blank_app in Hpre. simpl in Hpre.
      rewrite Hc, andb_false_r in Hpre. discriminate.
    - rewrite app_assoc in Hs. apply app_inj_tail in Hs.
      destruct Hs as [_ ->]. exists l. reflexivity. }
  rewrite Hu, rev_app_distr. simpl. eexists. reflexivity.
Qed.

(** [trim] gives the empty string exactly on the strings that are empty or
    hold white space only. *)
Lemma trim_nil_iff (s : list N) : trim s = [] <-> blank s = true.
Proof.
  unfold trim. split.
  - intros Ht.
    destruct (trimStart_split s) as (pre & Hs & Hpre & Hhd).
    destruct (trimStart s) as [|c r] eqn:E.
    + rewrite Hs, blank_app, Hpre. reflexivity.
    + destruct (trimEnd_keeps_head c r Hhd) as [r' Hr']. congruence.
  - intros Hb. rewrite (trimStart_blank s Hb). reflexivity.
Qed.

(** The decomposition of a string by [trim], and its two ends. *)
Lemma trim_split (s : list N) :
  exists pre post, s = pre ++ trim s ++ post
    /\ blank pre = true /\ blank post = true
    /\ match trim s with c :: _ => is_white_space c = false | [] => True end
    /\ match rev (trim s) with c :: _ => is_white_space c = false | [] => True end.
Proof.
  unfold trim.
  destruct (trimStart_split s) as (pre & Hs & Hpre & Hhd).
  destruct (trimEnd_split (trimStart s)) as (post & Ht & Hpost & Hlast).
  exists pre, post. repeat split; try assumption.
  - rewrite <- Ht. exact Hs.
  - destruct (trimStart s) as [|c r] eqn:E; [exact I|].
    destruct (trimEnd_keeps_head c r Hhd) as [r' ->]. exact Hhd.
Qed.

Lemma trimStart_id (s : list N) :
  match s with c :: _ => is_white_space c = false | [] => True end ->
  trimStart s = s.
Proof. destruct s as [|c r]; simpl; [reflexivity|]. intros ->. reflexivity. Qed.

(** A trimmed string is left alone by [trim]. *)
Lemma trim_idempotent (s : list N) : trim (trim s) = trim s.
Proof.
  destruct (trim_split s) as (_ & _ & _ & _ & _ & Hhd & Hlast).
  unfold trim at 1. rewrite (trimStart_id (trim s) Hhd).
  unfold trimEnd. rewrite (trimStart_id (rev (trim s)) Hlast).
  apply rev_involutive.
Qed.

End JSStringFacts.

(** ** The live conversation *)

Module LiveConversationFacts.
Import JSString JSStringFacts LiveConversation.

Ltac run_m :=
  unfold handle_transcription, handle_audio, stop_all_sources, schedule,
    stopAudioProcessing, release_if, release, console_error, when,
    try_catch, try_catch_finally, not_awaited, get, modify,
    mbind, M_bind, mret, M_ret, mthrow, M_throw; simpl.

Definition after_transcription (content : option ServerContent) (st : State) : State :=
  let input :=
    match content ≫= inputTranscription with
    | Some t => append_value (currentInputTranscriptionRef st) (ttext t)
    | None => currentInputTranscriptionRef st
    end in
  let output :=
    match content ≫= outputTranscription with
    | Some t => append_value (currentOutputTranscriptionRef st) (ttext t)
    | None => currentOutputTranscriptionRef st
    end in
  if default false (turnComplete <$> content)
  then set_currentOutputTranscriptionRef []
         (set_currentInputTranscriptionRef []
            (set_transcript (transcript st ++ newEntries (trim input) (trim output)) st))
  else set_currentOutputTranscriptionRef output
         (set_currentInputTranscriptionRef input st).

Lemma handle_transcription_normal content st :
  handle_transcription content st = (Normal tt, after_transcription content st).
Proof.
  unfold after_transcription.
  destruct st.
  destruct content as [[[it|] [ot|] [|] mt ir]|]; run_m;
    try reflexivity;
    match goal with
    | |- context [(0 <? length ?l)%nat] =>
        destruct l eqn:E; simpl; rewrite ?app_nil_r; reflexivity
    end.
Qed.

Section Messages.
Context `{AudioDecoder}.

Definition audio_tail (content : option ServerContent) (currentTime : Q) : M unit :=
  handle_audio content currentTime;;
  when (default false (interrupted <$> content)) stop_all_sources.

Lemma audio_tail_frame content t st :
  let st' := snd (audio_tail content t st) in
  status st' = status st /\ transcript st' = transcript st
  /\ currentInputTranscriptionRef st' = currentInputTranscriptionRef st
  /\ currentOutputTranscriptionRef st' = currentOutputTranscriptionRef st
  /\ error st' = error st.
Proof.
  unfold audio_tail, audioData_of. destruct st.
  destruct content as [[it ot tc mt ir]|]; simpl.
  2: { run_m. repeat split. }
  destruct mt as [[ps]|]; simpl.
  2: { run_m. destruct ir; simpl; repeat split. }
  destruct ps as [ps|]; simpl.
  2: { run_m. repeat split. }
  destruct ps as [|[[[[d|]]|]] ps]; run_m;
    repeat match goal with |- context [if ?b then _ else _] => destruct b; simpl end;
    repeat split.
Qed.

Lemma step_onmessage (st : State) (message : LiveServerMessage) (t : Q) :
  step st (OnMessage message t)
  = snd (audio_tail (serverContent message) t
           (after_transcription (serverContent message) st)).
Proof.
  unfold step, handler, onmessage, audio_tail.
  unfold mbind at 1, M_bind at 1.
  rewrite handle_transcription_normal. reflexivity.
Qed.

(** The buffers of a turn once the transcription texts of [content] have
    been appended. *)
Definition input_buffer (content : ServerContent) (st : State) : list N :=
  match inputTranscription content with
  | Some t => append_value (currentInputTranscriptionRef st) (ttext t)
  | None => currentInputTranscriptionRef st
  end.

Definition output_buffer (content : ServerContent) (st : State) : list N :=
  match outputTranscription content with
  | Some t => append_value (currentOutputTranscriptionRef st) (ttext t)
  | None => currentOutputTranscriptionRef st
  end.

Definition trimmed (s : list N) : Prop :=
  trim s = s /\ s <> [].

Lemma blank_iff_not_truthy (s : list N) :
  blank s = true <-> truthy (trim s) = false.
Proof.
  rewrite <- trim_nil_iff. destruct (trim s); simpl; split; congruence.
Qed.

Lemma newEntries_trimmed (u m : list N) :
  Forall (fun e => trimmed (text e)) (newEntries (trim u) (trim m)).
Proof.
  unfold newEntries. apply Forall_app. split.
  - destruct (trim u) eqn:E; simpl; constructor; [|constructor].
    simpl. split; [rewrite <- E; apply trim_idempotent|discriminate].
  - destruct (trim m) eqn:E; simpl; constructor; [|constructor].
    simpl. split; [rewrite <- E; apply trim_idempotent|discriminate].
Qed.

(** What a message with [turnComplete] does to the transcript and to the
    two buffers. *)
Lemma turnComplete_flush (st : State) (message : LiveServerMessage)
    (content : ServerContent) (currentTime : Q) :
  serverContent message = Some content -> turnComplete content = true ->
  let st' := step st (OnMessage message currentTime) in
  currentInputTranscriptionRef st' = []
  /\ currentOutputTranscriptionRef st' = []
  /\ transcript st'
     = transcript st
       ++ newEntries (trim (input_buffer content st))
                     (trim (output_buffer content st)).
Proof.
  intros Hc Ht st'.
  unfold st'. rewrite step_onmessage, Hc.
  destruct (audio_tail_frame (Some content) currentTime
              (after_transcription (Some content) st)) as (_ & F1 & F2 & F3 & _).
  rewrite F1, F2, F3.
  unfold after_transcription. simpl. rewrite Ht. simpl.
  fold (input_buffer content st) (output_buffer content st).
  destruct st; simpl. repeat split.
Qed.

(** C10: on a message with [turnComplete], the two buffers, with the
    partial texts of that message appended, are trimmed.  Both buffers are
    empty afterwards, whether or not an entry was committed; the transcript
    grows by the user's entry, if its trimmed text is not empty, and then
    the model's, likewise; a buffer that is empty or holds white space only
    gives no entry; and the text of every committed entry is a trimmed,
    non-empty string. *)
Theorem turnComplete_commits_trimmed (st : State) (message : LiveServerMessage)
    (content : ServerContent) (currentTime : Q) :
  serverContent message = Some content -> turnComplete content = true ->
  let st' := step st (OnMessage message currentTime) in
  let userInput := trim (input_buffer content st) in
  let modelOutput := trim (output_buffer content st) in
  currentInputTranscriptionRef st' = []
  /\ currentOutputTranscriptionRef st' = []
  /\ transcript st'
     = transcript st
       ++ (if truthy userInput then [mkEntry User userInput] else [])
       ++ (if truthy modelOutput then [mkEntry Model modelOutput] else [])
  /\ (blank (input_buffer content st) = true <-> truthy userInput = false)
  /\ (blank (output_buffer content st) = true <-> truthy modelOutput = false)
  /\ Forall (fun e => trimmed (text e)) (newEntries userInput modelOutput).
Proof.
  intros Hc Ht st' userInput modelOutput.
  destruct (turnComplete_flush st message content currentTime Hc Ht)
    as (Hi & Ho & Htr).
  split; [exact Hi|]. split; [exact Ho|]. split; [exact Htr|].
  split; [apply blank_iff_not_truthy|]. split; [apply blank_iff_not_truthy|].
  apply newEntries_trimmed.
Qed.

End Messages.

Section Turns.
Context `{AudioDecoder}.

(** A partial transcription event. *)
Inductive Partial :=
  | Input (s : list N)
  | Output (s : list N).

Definition partial_event (p : Partial * Q) : Event :=
  match fst p with
  | Input s => OnMessage (inputMessage s) (snd p)
  | Output s => OnMessage (outputMessage s) (snd p)
  end.

(** The user's words of a turn, and the model's, each in arrival order. *)
Fixpoint inputs_of (ps : list (Partial * Q)) : list N :=
  match ps with
  | (Input s, _) :: ps => s ++ inputs_of ps
  | (Output _, _) :: ps => inputs_of ps
  | [] => []
  end.

Fixpoint outputs_of (ps : list (Partial * Q)) : list N :=
  match ps with
  | (Output s, _) :: ps => s ++ outputs_of ps
  | (Input _, _) :: ps => outputs_of ps
  | [] => []
  end.

Lemma step_partial (st : State) (p : Partial * Q) :
  let st' := step st (partial_event p) in
  transcript st' = transcript st
  /\ currentInputTranscriptionRef st'
     = currentInputTranscriptionRef st
       ++ match fst p with Input s => s | Output _ => [] end
  /\ currentOutputTranscriptionRef st'
     = currentOutputTranscriptionRef st
       ++ match fst p with Output s => s | Input _ => [] end.
Proof.
  destruct p as [[s|s] t]; destruct st; simpl;
    rewrite ?app_nil_r; repeat split.
Qed.

Lemma run_partials (ps : list (Partial * Q)) : forall st,
  let st' := run (map partial_event ps) st in
  transcript st' = transcript st
  /\ currentInputTranscriptionRef st'
     = currentInputTranscriptionRef st ++ inputs_of ps
  /\ currentOutputTranscriptionRef st'
     = currentOutputTranscriptionRef st ++ outputs_of ps.
Proof.
  induction ps as [|p ps IH]; intros st.
  - simpl. rewrite !app_nil_r. repeat split.
  - change (run (map partial_event (p :: ps)) st)
      with (run (map partial_event ps) (step st (partial_event p))).
    destruct (IH (step st (partial_event p))) as (I1 & I2 & I3).
    destruct (step_partial st p) as (S1 & S2 & S3).
    cbv zeta. rewrite I1, I2, I3, S1, S2, S3.
    destruct p as [[s|s] t]; simpl; rewrite ?app_nil_r, <- ?app_assoc; repeat split.
Qed.

(** C6: whatever the interleaving of the partial input and output
    transcriptions of a turn, the turn-complete message appends the user's
    utterance, the inputs concatenated in arrival order and trimmed, if it
    is not empty, and after it the model's, likewise.  The events
    input "he", output "hi", input "llo", turnComplete give exactly
    [user "hello"; model "hi"]. *)
Theorem turn_puts_user_before_model (st : State) (ps : list (Partial * Q))
    (currentTime : Q) :
  let st' := run (map partial_event ps ++ [OnMessage turnCompleteMessage currentTime]) st in
  let userInput := trim (currentInputTranscriptionRef st ++ inputs_of ps) in
  let modelOutput := trim (currentOutputTranscriptionRef st ++ outputs_of ps) in
  transcript st'
  = transcript st
    ++ (if truthy userInput then [mkEntry User userInput] else [])
    ++ (if truthy modelOutput then [mkEntry Model modelOutput] else [])
  /\ transcript
       (run [OnMessage (inputMessage (lit "he")) currentTime;
             OnMessage (outputMessage (lit "hi")) currentTime;
             OnMessage (inputMessage (lit "llo")) currentTime;
             OnMessage turnCompleteMessage currentTime] initial)
     = [mkEntry User (lit "hello"); mkEntry Model (lit "hi")].
Proof.
  intros st' userInput modelOutput. split; [|reflexivity].
  assert (st' = step (run (map partial_event ps) st)
                     (OnMessage turnCompleteMessage currentTime)) as ->.
  { unfold st', run. rewrite foldl_app. reflexivity. }
  destruct (run_partials ps st) as (R1 & R2 & R3).
  destruct (turnComplete_flush (run (map partial_event ps) st)
              turnCompleteMessage _ currentTime eq_refl eq_refl)
    as (_ & _ & T).
  rewrite T. unfold input_buffer, output_buffer.
  change (inputTranscription _) with (@None Transcription).
  change (outputTranscription _) with (@None Transcription).
  cbv iota. rewrite R1, R2, R3. reflexivity.
Qed.
End Turns.

Section Playback.
Context `{AudioDecoder}.
Local Open Scope Q_scope.










End Playback.

Section Stopping.
Context `{AudioDecoder}.
Local Open Scope Q_scope.


(** What [stopAudioProcessing] lets go of, in its order. *)
Definition audio_held (st : State) : list Resource :=
  (if mediaStreamRef st then [MediaTracks] else [])
  ++ (if scriptProcessorRef st then [ScriptProcessor] else [])
  ++ (if mediaStreamSourceRef st then [MediaStreamSource] else [])
  ++ (if inputAudioContextRef st then [InputAudioContext] else [])
  ++ (if outputAudioContextRef st then [OutputAudioContext] else []).

(** What closing the session adds: the session when [close()] returns, a
    message on the console when the promise rejects or [close()] throws. *)
Definition session_closed (st : State) : list Resource * list string :=
  match sessionPromiseRef st with
  | Some (Fulfilled session) =>
      if closeThrows session then ([], ["Error closing session:"%string])
      else ([LiveSession], [])
  | Some (RejectedPromise _) => ([], ["Error closing session:"%string])
  | None => ([], [])
  end.

(** [stopAudioProcessing] returns, lets go of every audio ref and touches
    nothing else but the record of what was released. *)
Lemma stopAudioProcessing_normal (st : State) :
  stopAudioProcessing st
  = (Normal tt,
     mkState (status st) (transcript st) (error st) (sessionPromiseRef st)
       false false false false false
       (currentInputTranscriptionRef st) (currentOutputTranscriptionRef st)
       (nextStartTimeRef st) (audioSourcesRef st) (closureStatus st)
       (nextSourceId st) (started st) (stopCalls st)
       (released st ++ audio_held st) (console st)).
Proof.
  destruct st as [s tr e sp ic oc spr mss ms ci co ns src cs nid stt stc rel cons].
  unfold stopAudioProcessing, release_if, release, when, get, modify,
    mbind, M_bind, mret, M_ret, audio_held. simpl.
  destruct ms, spr, mss, ic, oc; simpl; rewrite <- ?app_assoc; simpl;
    rewrite ?app_nil_r; reflexivity.
Qed.

Lemma stopConversation_normal (st : State) :
  stopConversation st
  = (Normal tt,
     mkState Stopped (transcript st) (error st) None
       false false false false false
       (currentInputTranscriptionRef st) (currentOutputTranscriptionRef st)
       0 ∅ (closureStatus st)
       (nextSourceId st) (started st) (stopCalls st ∪ audioSourcesRef st)
       (released st ++ audio_held st ++ fst (session_closed st))
       (console st ++ snd (session_closed st))).
Proof.
  unfold stopConversation.
  unfold mbind at 1, M_bind at 1. unfold modify at 1.
  unfold mbind at 1, M_bind at 1.
  rewrite (stopAudioProcessing_normal (set_status Stopped st)).
  destruct st as [s tr e sp ic oc spr mss ms ci co ns src cs nid stt stc rl cons].
  unfold session_closed, audio_held.
  cbn [set_status status transcript error sessionPromiseRef inputAudioContextRef
       outputAudioContextRef scriptProcessorRef mediaStreamSourceRef
       mediaStreamRef currentInputTranscriptionRef currentOutputTranscriptionRef
       nextStartTimeRef audioSourcesRef closureStatus nextSourceId started
       stopCalls released console].
  destruct sp as [[[[|]]|reason]|];
    unfold stop_all_sources, try_catch_finally, await_session, session_close,
      console_error, release, get, modify, mbind, M_bind, mret, M_ret,
      mthrow, M_throw;
    cbn [closeThrows fst snd
         set_status set_stopCalls set_audioSourcesRef set_nextStartTimeRef
         set_sessionPromiseRef set_console set_released
         status transcript error sessionPromiseRef inputAudioContextRef
         outputAudioContextRef scriptProcessorRef mediaStreamSourceRef
         mediaStreamRef currentInputTranscriptionRef currentOutputTranscriptionRef
         nextStartTimeRef audioSourcesRef closureStatus nextSourceId started
         stopCalls released console];
    rewrite ?app_nil_r, <- ?app_assoc; reflexivity.
Qed.


End Stopping.

Section Status.
Context `{AudioDecoder}.
Local Open Scope Q_scope.



End Status.





(** A turn whose input is " hi " and whose output is three spaces. *)
Definition paddedTurn : ServerContent :=
  mkServerContent (Some (mkTranscription (Some (lit " hi "))))
                  (Some (mkTranscription (Some (lit "   "))))
                  true None false.

Lemma turnComplete_commits_trimmed_witness :
  let st' := step (H := tenths) initial
               (OnMessage (mkMessage (Some paddedTurn)) 0%Q) in
  transcript st' = [mkEntry User (lit "hi")]
  /\ currentInputTranscriptionRef st' = []
  /\ currentOutputTranscriptionRef st' = [].
Proof.
  destruct (turnComplete_commits_trimmed (H := tenths) initial
              (mkMessage (Some paddedTurn)) paddedTurn 0%Q eq_refl eq_refl)
    as (Hi & Ho & Ht & _).
  split; [exact Ht|]. split; [exact Hi|exact Ho].
Defined.

End LiveConversationFacts.

(* ===================================================================== *)
(** * Part III: whole sessions, uploads and runs *)
(* ===================================================================== *)

(** ** The masking canvas through a session *)

Module MaskingCanvasSessionFacts.
Import Canvas2D Canvas2DFacts MaskingCanvas MaskingCanvasFacts MaskingCanvasSession.

(** The flags that [updateHistoryState] computes from the history. *)
Definition flags (st : State) : bool * bool :=
  (0 <? historyIndexRef st, historyIndexRef st <? len (historyRef st) - 1).

(** The state of a component whose mask has been initialised: the drawing
    canvas exists; the snapshots have its size; the cursor is inside the
    stack; the flags last reported are those of the history; and, unless a
    stroke is in progress, the canvas is the snapshot under the cursor. *)
Record consistent (st : State) : Prop := {
  has_canvas : exists c w h,
    drawingCanvasRef st = Some c /\ shape w h c
    /\ Forall (shaped w h) (historyRef st)
    /\ (isDrawing st = false ->
        at_index (historyRef st) (historyIndexRef st) = Some (getImageData c));
  cursor_in_range : 0 <= historyIndexRef st < len (historyRef st);
  flags_reported : head (onHistoryChange st) = Some (flags st)
}.

Lemma at_index_Some (h : list ImageData) (i : Z) :
  0 <= i < len h -> exists img, at_index h i = Some img.
Proof.
  intros Hi. unfold at_index. destruct (Z.ltb_spec i 0); [lia|].
  destruct (lookup_lt_is_Some_2 h (Z.to_nat i)) as [img Himg];
    [unfold len in Hi; lia|]. eauto.
Qed.

Lemma at_index_shaped w h (hs : list ImageData) (i : Z) img :
  Forall (shaped w h) hs -> at_index hs i = Some img -> shaped w h img.
Proof.
  intros HF. unfold at_index. destruct (i <? 0); [discriminate|].
  intros Hl. eapply Forall_lookup_1; eassumption.
Qed.

Lemma putImageData_snapshot w h img c :
  shaped w h img -> shape w h c ->
  shape w h (putImageData img (clearRect_all c))
  /\ getImageData (putImageData img (clearRect_all c)) = img.
Proof.
  intros Hi Hc.
  assert (shape w h (clearRect_all c)) as Hcl.
  { destruct Hc as (Hw & Hh & _).
    rewrite (clearRect_all_shape w h) by assumption. apply shape_createCanvas. }
  rewrite (putImageData_same_size w h img _ Hi Hcl).
  destruct img as [iw ih d]. destruct Hi as (Hw & Hh & Hl). simpl in *. subst.
  split; [repeat split; assumption|reflexivity].
Qed.

(** Moving the cursor to an entry of the stack and restoring. *)
Lemma restore_consistent (st : State) (i : Z) :
  consistent st -> 0 <= i < len (historyRef st) ->
  let st' := restoreState (set_history (historyRef st) i st) in
  consistent st'
  /\ historyRef st' = historyRef st /\ historyIndexRef st' = i
  /\ isDrawing st' = isDrawing st /\ imageRef st' = imageRef st
  /\ exists c', drawingCanvasRef st' = Some c'
       /\ at_index (historyRef st) i = Some (getImageData c').
Proof.
  intros [(c & w & h & Hc & Hs & HF & Hcur) Hrange Hfl] Hi.
  destruct (at_index_Some _ _ Hi) as [img Himg].
  pose proof (at_index_shaped w h _ _ _ HF Himg) as Hshaped.
  destruct (putImageData_snapshot w h img c Hshaped Hs) as (Hs' & Hget).
  unfold restoreState. simpl. rewrite Hc.
  destruct (Z.leb_spec 0 i); [|lia]. rewrite Himg. simpl.
  split; [|repeat split; eexists; split; [reflexivity|congruence]].
  constructor; simpl.
  - exists (putImageData img (clearRect_all c)), w, h.
    repeat split; try assumption; try apply Hs'. intros _. congruence.
  - exact Hi.
  - reflexivity.
Qed.

(** Saving after the canvas has been painted on. *)
Lemma saveState_consistent (st : State) (c : Canvas) (w h : nat) :
  drawingCanvasRef st = Some c -> shape w h c ->
  Forall (shaped w h) (historyRef st) ->
  -1 <= historyIndexRef st < len (historyRef st) ->
  consistent (saveState st).
Proof.
  intros Hc Hs HF Hi.
  destruct (saveState_fields st c Hc ltac:(lia)) as (Hh & Hx & Hcv & _).
  assert (len (historyRef (saveState st)) = historyIndexRef st + 2) as Hlen.
  { rewrite Hh. unfold len in *. rewrite length_app, length_take. simpl. lia. }
  constructor.
  - exists c, w, h. repeat split; try assumption; try apply Hs.
    + rewrite Hh. apply Forall_app. split.
      * apply Forall_take, HF.
      * constructor; [apply shaped_getImageData, Hs|constructor].
    + intros _. rewrite Hh, Hx. unfold at_index.
      destruct (Z.ltb_spec (historyIndexRef st + 1) 0); [lia|].
      apply list_lookup_middle. rewrite length_take. unfold len in Hi. lia.
  - rewrite Hlen, Hx. lia.
  - unfold saveState. rewrite Hc. reflexivity.
Qed.

Section Ops.
Context `{Rasterizer}.

Lemma drawOnCanvas_consistent (x y : Z) (st : State) :
  consistent st -> isDrawing st = true -> consistent (drawOnCanvas x y st).
Proof.
  intros [(c & w & h & Hc & Hs & HF & Hcur) Hrange Hfl] Hd.
  unfold drawOnCanvas. rewrite Hc.
  constructor; simpl; try assumption.
  eexists _, w, h. split; [reflexivity|].
  split; [destruct (lastPointRef st); apply shape_paint, Hs|].
  split; [assumption|]. intros Hd'. congruence.
Qed.

Lemma handle_consistent (ev : Event) (st : State) :
  consistent st -> consistent (handle ev st).
Proof.
  intros Hst.
  assert (forall st, consistent st -> consistent (handleMouseUp st)) as Hup.
  { clear st Hst. intros st [(c & w & h & Hc & Hs & HF & Hcur) Hrange Hfl].
    unfold handleMouseUp. destruct (isDrawing st) eqn:Hd; simpl.
    - apply (saveState_consistent _ c w h); simpl; try assumption. lia.
    - constructor; eauto 10. }
  destruct ev as [e|e| |]; simpl; try (apply Hup, Hst).
  - unfold handleMouseDown, getMousePos. simpl.
    destruct Hst as [(c & w & h & Hc & Hs & HF & Hcur) Hrange Hfl].
    rewrite Hc. apply drawOnCanvas_consistent; [|reflexivity].
    constructor; simpl; try assumption.
    exists c, w, h. repeat split; try assumption; try apply Hs. discriminate.
  - unfold handleMouseMove. destruct (isDrawing st) eqn:Hd; simpl; [|assumption].
    unfold getMousePos.
    destruct Hst as [(c & w & h & Hc & Hs & HF & Hcur) Hrange Hfl].
    rewrite Hc. apply drawOnCanvas_consistent; [|assumption].
    constructor; eauto 10.
Qed.

Lemma clearMask_consistent (st : State) (c : Canvas) (w h : nat) :
  drawingCanvasRef st = Some c -> shape w h c -> consistent (clearMask st).
Proof.
  intros Hc Hs. unfold clearMask. rewrite Hc.
  apply (saveState_consistent _ (clearRect_all c) w h); simpl.
  - reflexivity.
  - destruct Hs as (Hw & Hh & _).
    rewrite (clearRect_all_shape w h) by assumption. apply shape_createCanvas.
  - constructor.
  - unfold len. simpl. lia.
Qed.

Lemma apply_consistent (op : Op) (st : State) :
  consistent st -> consistent (apply st op).
Proof.
  intros Hst. destruct op as [ev| | | |dw dh]; simpl.
  - apply handle_consistent, Hst.
  - unfold undo. destruct (Z.ltb_spec 0 (historyIndexRef st)); [|assumption].
    apply restore_consistent; [assumption|].
    destruct Hst as [_ Hr _]. lia.
  - unfold redo.
    destruct (Z.ltb_spec (historyIndexRef st) (len (historyRef st) - 1));
      [|assumption].
    apply restore_consistent; [assumption|].
    destruct Hst as [_ Hr _]. lia.
  - destruct Hst as [(c & w & h & Hc & Hs & _) _ _].
    apply (clearMask_consistent st c w h); assumption.
  - unfold MaskingCanvas.drawImage.
    destruct Hst as [(c & w & h & Hc & Hs & HF & Hcur) Hrange Hfl].
    destruct (imageRef st); [rewrite Hc|constructor; eauto 10].
    apply (clearMask_consistent _ (createCanvas dw dh) dw dh);
      [reflexivity|apply shape_createCanvas].
Qed.

Lemma session_consistent (st0 : State) (c0 : Canvas) (img : HTMLImage)
    (w h : nat) (ops : list Op) :
  drawingCanvasRef st0 = Some c0 -> imageRef st0 = Some img ->
  consistent (session ops (MaskingCanvas.drawImage w h st0)).
Proof.
  intros Hc Hi. unfold session.
  assert (consistent (MaskingCanvas.drawImage w h st0)) as Hinit.
  { unfold MaskingCanvas.drawImage. rewrite Hi, Hc.
    apply (clearMask_consistent _ (createCanvas w h) w h);
      [reflexivity|apply shape_createCanvas]. }
  revert Hinit. generalize (MaskingCanvas.drawImage w h st0).
  induction ops as [|op ops IH]; intros s Hs; simpl; [assumption|].
  apply IH, apply_consistent, Hs.
Qed.


(** Moving the cursor to another entry and back. *)
Lemma restore_there_and_back (st : State) (j : Z) :
  consistent st -> isDrawing st = false -> 0 <= j < len (historyRef st) ->
  let st1 := restoreState (set_history (historyRef st) j st) in
  let st2 := restoreState (set_history (historyRef st1) (historyIndexRef st) st1) in
  historyRef st1 = historyRef st /\ historyIndexRef st1 = j
  /\ drawingCanvasRef st2 = drawingCanvasRef st
  /\ historyRef st2 = historyRef st
  /\ historyIndexRef st2 = historyIndexRef st.
Proof.
  intros Hst Hd Hj st1 st2.
  destruct (restore_consistent st j Hst Hj) as (Hst1 & Hh1 & Hi1 & _).
  fold st1 in Hst1, Hh1, Hi1.
  assert (0 <= historyIndexRef st < len (historyRef st1)) as Hi
    by (rewrite Hh1; apply Hst).
  destruct (restore_consistent st1 (historyIndexRef st) Hst1 Hi)
    as (_ & Hh2 & Hi2 & _ & _ & c' & Hc' & Hat').
  fold st2 in Hh2, Hi2, Hc'.
  destruct Hst as [(c & _ & _ & Hc & _ & _ & Hcur) _ _].
  rewrite Hh1, (Hcur Hd) in Hat'.
  assert (c = c') as -> by (apply getImageData_inj; congruence).
  repeat split; congruence.
Qed.

(** X2: in a session, between strokes, [undo] and [redo] are inverse to
    each other wherever the first of the two has an entry to go to: the
    canvas, the stack and the cursor are the same again. *)
Theorem undo_and_redo_are_inverse (st0 : State) (c0 : Canvas)
    (img : HTMLImage) (w h : nat) (ops : list Op) :
  drawingCanvasRef st0 = Some c0 -> imageRef st0 = Some img ->
  let st := session ops (MaskingCanvas.drawImage w h st0) in
  isDrawing st = false ->
  (0 < historyIndexRef st ->
   drawingCanvasRef (redo (undo st)) = drawingCanvasRef st
   /\ historyRef (redo (undo st)) = historyRef st
   /\ historyIndexRef (redo (undo st)) = historyIndexRef st)
  /\ (historyIndexRef st < len (historyRef st) - 1 ->
      drawingCanvasRef (undo (redo st)) = drawingCanvasRef st
      /\ historyRef (undo (redo st)) = historyRef st
      /\ historyIndexRef (undo (redo st)) = historyIndexRef st).
Proof.
  intros Hc Hi st Hd.
  pose proof (session_consistent st0 c0 img w h ops Hc Hi) as Hst. fold st in Hst.
  pose proof (cursor_in_range st Hst) as Hrange.
  split; intros Hcur.
  - destruct (restore_there_and_back st (historyIndexRef st - 1) Hst Hd ltac:(lia))
      as (Hh1 & Hi1 & R).
    unfold undo. destruct (Z.ltb_spec 0 (historyIndexRef st)); [|lia].
    set (st1 := restoreState (set_history (historyRef st) (historyIndexRef st - 1) st))
      in *.
    assert (redo st1
            = restoreState (set_history (historyRef st1) (historyIndexRef st) st1))
      as ->; [|exact R].
    unfold redo. rewrite Hi1. rewrite Hh1 at 1.
    destruct (Z.ltb_spec (historyIndexRef st - 1) (len (historyRef st) - 1)); [|lia].
    replace (historyIndexRef st - 1 + 1) with (historyIndexRef st) by lia.
    reflexivity.
  - destruct (restore_there_and_back st (historyIndexRef st + 1) Hst Hd ltac:(lia))
      as (Hh1 & Hi1 & R).
    unfold redo.
    destruct (Z.ltb_spec (historyIndexRef st) (len (historyRef st) - 1)); [|lia].
    set (st1 := restoreState (set_history (historyRef st) (historyIndexRef st + 1) st))
      in *.
    assert (undo st1
            = restoreState (set_history (historyRef st1) (historyIndexRef st) st1))
      as ->; [|exact R].
    unfold undo. rewrite Hi1.
    destruct (Z.ltb_spec 0 (historyIndexRef st + 1)); [|lia].
    replace (historyIndexRef st + 1 - 1) with (historyIndexRef st) by lia.
    reflexivity.
Qed.

(** *** The exported mask *)

(** X3: when the drawing canvas and the image are there and the canvas
    has pixels, [getMaskAsBase64] resolves, and every pixel of the mask is
    opaque and grey; it is white exactly where the stroke layer, scaled to
    the size of the image, is fully opaque, and black exactly where that
    layer is fully transparent. *)
Theorem exported_mask_levels (st : State) (drawingCanvas : Canvas)
    (img : HTMLImage) :
  drawingCanvasRef st = Some drawingCanvas -> imageRef st = Some img ->
  cwidth drawingCanvas <> 0%nat -> cheight drawingCanvas <> 0%nat ->
  exists m, getMaskAsBase64 st = Resolved m
    /\ forall i p, data m !! i = Some p ->
         let a := alpha (resample drawingCanvas
                           (naturalWidth img) (naturalHeight img)
                           (i mod naturalWidth img) (i / naturalWidth img))%nat in
         alpha p = 255 /\ red p = green p /\ green p = blue p
         /\ (p = white <-> 255 <= a) /\ (p = black <-> a = 0).
Proof.
  intros Hc Hi Hw Hh.
  destruct (getMaskAsBase64_native_size st drawingCanvas img Hc Hi Hw Hh)
    as (m & Hm & _ & _ & _ & Hp).
  exists m. split; [exact Hm|]. intros i p Hip a.
  rewrite (Hp i p Hip). fold a. unfold gray, white, black.
  split; [reflexivity|]. split; [reflexivity|]. split; [reflexivity|].
  split; split; intros E; try (injection E as E; lia); f_equal; lia.
Qed.


End Ops.

(** A session on a canvas of 4 by 4 pixels: a click, the button released,
    [undo]. *)
Definition clickAndUndo : list Op :=
  [Mouse (MouseDown (1, 1)); Mouse MouseUp; Undo].

Definition loaded : State := onload (mkImage 8 8) 4 4 (mounted 2).


Lemma undo_and_redo_are_inverse_witness :
  let st := session (H := hardEdge) clickAndUndo (MaskingCanvas.drawImage 4 4 loaded) in
  drawingCanvasRef (undo (redo st)) = drawingCanvasRef st.
Proof.
  exact (proj1 (proj2 (undo_and_redo_are_inverse (H := hardEdge) loaded
                         (createCanvas 4 4) (mkImage 8 8) 4 4 clickAndUndo
                         eq_refl eq_refl eq_refl) eq_refl)).
Defined.

Lemma exported_mask_levels_witness :
  exists m,
    getMaskAsBase64 (H := hardEdge)
      (session (H := hardEdge) clickAndUndo (MaskingCanvas.drawImage 4 4 loaded))
    = Resolved m.
Proof.
  destruct (exported_mask_levels (H := hardEdge)
              (session (H := hardEdge) clickAndUndo (MaskingCanvas.drawImage 4 4 loaded))
              (createCanvas 4 4) (mkImage 8 8) eq_refl eq_refl
              ltac:(discriminate) ltac:(discriminate)) as (m & Hm & _).
  exists m. exact Hm.
Defined.

End MaskingCanvasSessionFacts.

(** ** Splitting and joining strings *)

Module StringFacts.
Import Generation.
Local Open Scope string_scope.

(** [sep] does not occur in [s]. *)
Fixpoint free_of (sep : ascii) (s : string) : bool :=
  match s with
  | EmptyString => true
  | String c rest => negb (Ascii.eqb c sep) && free_of sep rest
  end.

Lemma split_nonempty sep s : split sep s <> [].
Proof.
  destruct s as [|c rest]; simpl; [discriminate|].
  destruct (Ascii.eqb c sep); [discriminate|].
  destruct (split sep rest); discriminate.
Qed.

Lemma split_free sep s : free_of sep s = true -> split sep s = [s].
Proof.
  induction s as [|c rest IH]; simpl; [reflexivity|].
  intros Hf. apply andb_prop in Hf. destruct Hf as [Hc Hr].
  apply negb_true_iff in Hc. rewrite Hc, (IH Hr). reflexivity.
Qed.

(** Splitting at the first separator. *)
Lemma split_first sep a b :
  free_of sep a = true -> split sep (a ++ String sep b) = a :: split sep b.
Proof.
  induction a as [|c rest IH]; simpl.
  - intros _. rewrite Ascii.eqb_refl. reflexivity.
  - intros Hf. apply andb_prop in Hf. destruct Hf as [Hc Hr].
    apply negb_true_iff in Hc. rewrite Hc, (IH Hr). reflexivity.
Qed.

(** Splitting, in general: the pieces before a separator, then the pieces
    after it. *)
Lemma split_app sep a b :
  split sep (a ++ String sep b) = (split sep a ++ split sep b)%list.
Proof.
  induction a as [|c rest IH]; simpl.
  - rewrite Ascii.eqb_refl. reflexivity.
  - destruct (Ascii.eqb c sep); [rewrite IH; reflexivity|].
    rewrite IH. destruct (split sep rest) eqn:E; [|reflexivity].
    exfalso. exact (split_nonempty sep rest E).
Qed.

(** [s.split(sep).join(sep)] is [s]. *)
Lemma join_split sep s : String.concat (String sep "") (split sep s) = s.
Proof.
  induction s as [|c rest IH]; simpl; [reflexivity|].
  destruct (Ascii.eqb_spec c sep) as [->|Hne].
  - pose proof (split_nonempty sep rest) as Hn.
    simpl. destruct (split sep rest) as [|w ws]; [contradiction|].
    simpl in *. rewrite IH. reflexivity.
  - pose proof (split_nonempty sep rest) as Hn.
    destruct (split sep rest) as [|w ws]; [contradiction|].
    simpl in *. destruct ws; simpl in *; rewrite <- IH; reflexivity.
Qed.

Lemma removelast_snoc {A} (l : list A) (x : A) : removelast (l ++ [x])%list = l.
Proof. apply removelast_last. Qed.

(** X9: the name under which a generated image is offered: the name of
    the uploaded file with its last extension replaced by the one of the
    reply, after [processed_]; for a file name without a dot, the whole
    name is dropped and [processed_.] is followed by the extension. *)
Theorem processed_file_name (id : nat) (url base ext type : string)
    (d : InlineData) :
  free_of dot ext = true ->
  gfileName (processed (mkOriginal id url (base ++ String dot ext) type) d)
  = "processed_" ++ base ++ "." ++ extension_of (mimeType d)
  /\ gfileName (processed (mkOriginal id url ext type) d)
     = "processed_." ++ extension_of (mimeType d).
Proof.
  intros Hext. unfold processed. cbn [fileName gfileName oid]. split.
  - rewrite split_app, (split_free dot ext Hext), removelast_snoc, join_split.
    reflexivity.
  - rewrite (split_free dot ext Hext). reflexivity.
Qed.

(** X10: the extension taken from the MIME type of the reply: what
    follows the slash, and [png] when nothing follows it or when there is
    no slash. *)
Theorem extension_of_mime (a b : string) :
  free_of slash a = true -> free_of slash b = true ->
  extension_of (a ++ String slash b) = (if String.eqb b "" then "png" else b)
  /\ extension_of a = "png".
Proof.
  intros Ha Hb. unfold extension_of. split.
  - rewrite (split_first slash a b Ha), (split_free slash b Hb). reflexivity.
  - rewrite (split_free slash a Ha). reflexivity.
Qed.

Lemma processed_file_name_witness :
  gfileName (processed (mkOriginal 7 "data:image/jpeg;base64,AAAA"
                          "holiday.photo.jpeg" "image/jpeg")
                       (mkInline "CCCC" "image/png"))
  = "processed_holiday.photo.png".
Proof.
  exact (proj1 (processed_file_name 7 "data:image/jpeg;base64,AAAA"
                  "holiday.photo" "jpeg" "image/jpeg"
                  (mkInline "CCCC" "image/png") eq_refl)).
Defined.

Lemma extension_of_mime_witness :
  extension_of "image/webp" = "webp" /\ extension_of "image/" = "png".
Proof.
  split.
  - exact (proj1 (extension_of_mime "image" "webp" eq_refl eq_refl)).
  - exact (proj1 (extension_of_mime "image" "" eq_refl eq_refl)).
Defined.

End StringFacts.

(** ** Every run of handleGenerate *)

Module GenerationLoopFacts.
Import Generation GenerationFacts.

(** What a run of a loop leaves behind: it has asked for the first [k]
    images, in order, and for nothing else; it has not touched the loading
    flag; the generated images shown are those it found on entry or the
    collected ones followed by new ones, which come from the uploaded
    images in their order. *)
Definition loop_result (tool : Tool) (prompt : string)
    (mask : option (MaskingCanvas.Settled string))
    (images : list OriginalImage) (shown : list GeneratedImage)
    (st st' : State) : Prop :=
  (exists k, (k <= length images)%nat
     /\ (isBatchMode tool = false -> (k <= 1)%nat)
     /\ ((0 < k)%nat -> mask_ok tool mask)
     /\ requests st' = requests st ++ map (parts_for tool prompt mask) (take k images))
  /\ isLoading st' = isLoading st
  /\ (generatedImages st' = generatedImages st
      \/ exists generated,
           generatedImages st' = shown ++ generated
           /\ sublist (map gid generated) (map oid images)).

Lemma loop_result_here tool prompt mask images shown st :
  loop_result tool prompt mask images shown st st.
Proof.
  split; [|split; [reflexivity|left; reflexivity]].
  exists 0%nat. simpl. rewrite app_nil_r. repeat split; lia.
Qed.

Lemma request_parts_mask_ok tool prompt mask image parts :
  request_parts tool prompt mask image = inr parts -> mask_ok tool mask.
Proof.
  unfold request_parts, mask_ok. intros Hp reason Hm. rewrite Hm in Hp.
  discriminate.
Qed.

(** One image was asked for, and then the loop went on from [st1]. *)
Lemma loop_result_step tool prompt mask image rest shown shown1 new st st1 st' :
  mask_ok tool mask ->
  requests st1 = requests st ++ [parts_for tool prompt mask image] ->
  isLoading st1 = isLoading st ->
  (new = [] /\ shown1 = shown /\ generatedImages st1 = generatedImages st
   \/ exists d, new = [processed image d] /\ shown1 = shown ++ new
                /\ generatedImages st1 = shown1) ->
  (isBatchMode tool = false -> st' = st1) ->
  loop_result tool prompt mask rest shown1 st1 st' ->
  loop_result tool prompt mask (image :: rest) shown st st'.
Proof.
  intros Hm Hreq Hl Hnew Hsingle ((k & Hk & Hk1 & _ & Hreq') & Hl' & Hgen).
  split; [|split; [congruence|]].
  - destruct (isBatchMode tool) eqn:Hb.
    + exists (S k). simpl. rewrite Hreq', Hreq, <- app_assoc.
      repeat split; try lia; try discriminate. intros _. exact Hm.
    + exists 1%nat. simpl. rewrite ?take_0, (Hsingle eq_refl), Hreq.
      repeat split; try lia. intros _. exact Hm.
  - destruct Hnew as [(-> & -> & Hg1) | (d & -> & -> & Hg1)].
    + destruct Hgen as [Hg | (generated & Hg & Hsub)].
      * left. congruence.
      * right. exists generated. split; [exact Hg|]. simpl.
        apply sublist_cons, Hsub.
    + right. destruct Hgen as [Hg | (generated & Hg & Hsub)].
      * exists [processed image d]. split; [congruence|]. simpl.
        apply sublist_skip, sublist_nil_l.
      * exists (processed image d :: generated).
        split; [rewrite Hg, <- app_assoc; reflexivity|]. simpl.
        apply sublist_skip, Hsub.
Qed.

Lemma loop_editor tool prompt mask ai :
  forall images processedImages st,
  exists st' thrown,
    ImageEditor.generate_loop tool prompt mask ai images processedImages st
      = (st', thrown)
    /\ loop_result tool prompt mask images processedImages st st'.
Proof.
  induction images as [|image rest IH]; intros processedImages st.
  - exists st, None. split; [reflexivity|apply loop_result_here].
  - simpl. destruct (request_parts tool prompt mask image) as [e|parts] eqn:Ep.
    { exists st, (Some e). split; [reflexivity|apply loop_result_here]. }
    assert (parts_for tool prompt mask image = parts) as Hparts
      by (unfold parts_for; rewrite Ep; reflexivity).
    pose proof (request_parts_mask_ok _ _ _ _ _ Ep) as Hm.
    unfold generateContent.
    destruct (ai (length (requests st)) parts) as [firstPart|e].
    2: { set (st1 := mkState (generatedImages st) (isLoading st) (error st)
                              (requests st ++ [parts])).
         exists st1, (Some e). split; [reflexivity|].
         apply (loop_result_step tool prompt mask image rest processedImages
                  processedImages [] st st1 st1);
           [exact Hm|rewrite Hparts; reflexivity|reflexivity|left; repeat split|
            reflexivity|apply loop_result_here]. }
    set (next :=
      match firstPart with
      | Some (Some inlineData) =>
          (processedImages ++ [processed image inlineData],
           setGeneratedImages (processedImages ++ [processed image inlineData])
             (mkState (generatedImages st) (isLoading st) (error st)
                      (requests st ++ [parts])))
      | _ => (processedImages,
              setError (Some (noImageData image))
                (mkState (generatedImages st) (isLoading st) (error st)
                         (requests st ++ [parts])))
      end).
    assert (requests (snd next) = requests st ++ [parts_for tool prompt mask image]
            /\ isLoading (snd next) = isLoading st
            /\ (([] : list GeneratedImage) = [] /\ fst next = processedImages
                /\ generatedImages (snd next) = generatedImages st
                \/ exists d, fst next = processedImages ++ [processed image d]
                     /\ generatedImages (snd next) = fst next)) as (N1 & N2 & N3).
    { subst next. rewrite Hparts. destruct firstPart as [[d|]|]; simpl;
        repeat split; auto. right. exists d. split; reflexivity. }
    destruct next as [p1 st1] eqn:En. simpl in N1, N2, N3.
    destruct (negb (isBatchMode tool)) eqn:Hb.
    + exists st1, None. split; [reflexivity|].
      destruct N3 as [(_ & -> & N3) | (d & -> & N3)].
      * eapply (loop_result_step _ _ _ _ _ _ _ []);
          [exact Hm|exact N1|exact N2|left; repeat split; exact N3|reflexivity|
           apply loop_result_here].
      * eapply (loop_result_step _ _ _ _ _ _ _ [processed image d]);
          [exact Hm|exact N1|exact N2|right; exists d; repeat split; exact N3|reflexivity|
           apply loop_result_here].
    + destruct (IH p1 st1) as (st' & thrown & -> & Hres).
      exists st', thrown. split; [reflexivity|].
      assert (isBatchMode tool = false -> st' = st1) as Hs
        by (intros E; rewrite E in Hb; discriminate).
      destruct N3 as [(_ & -> & N3) | (d & -> & N3)].
      * eapply (loop_result_step _ _ _ _ _ _ _ []);
          [exact Hm|exact N1|exact N2|left; repeat split; exact N3|exact Hs|exact Hres].
      * eapply (loop_result_step _ _ _ _ _ _ _ [processed image d]);
          [exact Hm|exact N1|exact N2|right; exists d; repeat split; exact N3|exact Hs|
           exact Hres].
Qed.

Lemma loop_part003 tool prompt mask ai :
  forall images processedImages st,
  exists st' thrown,
    ImageEditorPart003.generate_loop tool prompt mask ai images processedImages st
      = (st', thrown)
    /\ loop_result tool prompt mask images (generatedImages st) st st'.
Proof.
  induction images as [|image rest IH]; intros processedImages st.
  - exists st, None. split; [reflexivity|apply loop_result_here].
  - simpl. destruct (request_parts tool prompt mask image) as [e|parts] eqn:Ep.
    { exists st, (Some e). split; [reflexivity|apply loop_result_here]. }
    assert (parts_for tool prompt mask image = parts) as Hparts
      by (unfold parts_for; rewrite Ep; reflexivity).
    pose proof (request_parts_mask_ok _ _ _ _ _ Ep) as Hm.
    unfold generateContent.
    set (st0 := mkState (generatedImages st) (isLoading st) (error st)
                        (requests st ++ [parts])).
    assert (forall thrown : option Thrown, exists st' thrown',
              (st0, thrown) = (st', thrown')
              /\ loop_result tool prompt mask (image :: rest) (generatedImages st)
                   st st') as Hstop.
    { intros thrown. exists st0, thrown. split; [reflexivity|].
      apply (loop_result_step tool prompt mask image rest (generatedImages st)
               (generatedImages st) [] st st0 st0);
        [exact Hm|rewrite Hparts; reflexivity|reflexivity|left; repeat split|
         reflexivity|apply loop_result_here]. }
    destruct (ai (length (requests st)) parts) as [[[d|]|]|e]; try apply Hstop.
    set (st1 := setGeneratedImages (generatedImages st0 ++ [processed image d]) st0).
    assert (loop_result tool prompt mask rest (generatedImages st1) st1 st1
            -> forall st', (isBatchMode tool = false -> st' = st1) ->
               loop_result tool prompt mask rest (generatedImages st1) st1 st' ->
               loop_result tool prompt mask (image :: rest) (generatedImages st)
                 st st') as Hstep.
    { intros _ st' Hs Hres.
      apply (loop_result_step tool prompt mask image rest (generatedImages st)
               (generatedImages st1) [processed image d] st st1 st');
        [exact Hm|rewrite Hparts; reflexivity|reflexivity|
         right; exists d; repeat split|exact Hs|exact Hres]. }
    destruct (negb (isBatchMode tool)) eqn:Hb.
    + exists st1, None. split; [reflexivity|].
      apply Hstep; [apply loop_result_here|reflexivity|apply loop_result_here].
    + destruct (IH (processedImages ++ [processed image d]) st1)
        as (st' & thrown & Heq & Hres).
      exists st', thrown. split; [exact Heq|].
      apply Hstep; [apply loop_result_here| |exact Hres].
      intros E. rewrite E in Hb. discriminate.
Qed.

(** Both versions of [handleGenerate], a run of either. *)
Definition handleGenerate_of (later : bool) :=
  if later then ImageEditorPart003.handleGenerate else ImageEditor.handleGenerate.

Lemma handleGenerate_result (later : bool) tool prompt mask ai images st :
  let st' := handleGenerate_of later tool prompt mask ai images st in
  (requests st' = requests st /\ isLoading st' = isLoading st
   /\ generatedImages st' = generatedImages st)
  \/ (isLoading st' = false
      /\ exists st1, loop_result tool prompt mask images [] 
                       (setGeneratedImages [] (setError None (setIsLoading true st))) st1
           /\ requests st' = requests st1
           /\ generatedImages st' = generatedImages st1).
Proof.
  destruct later; simpl.
  - unfold ImageEditorPart003.handleGenerate.
    destruct (length images =? 0)%nat; [left; repeat split|].
    destruct (requiresPrompt tool && String.eqb prompt ""); [left; repeat split|].
    right.
    destruct (loop_part003 tool prompt mask ai images []
                (setGeneratedImages [] (setError None (setIsLoading true st))))
      as (st1 & thrown & -> & Hres).
    split; [reflexivity|]. exists st1. split; [exact Hres|].
    destruct thrown as [[m|v]|]; repeat split.
  - unfold ImageEditor.handleGenerate.
    destruct (length images =? 0)%nat; [left; repeat split|].
    destruct (requiresPrompt tool && String.eqb prompt ""); [left; repeat split|].
    right.
    destruct (loop_editor tool prompt mask ai images []
                (setGeneratedImages [] (setError None (setIsLoading true st))))
      as (st1 & thrown & -> & Hres).
    split; [reflexivity|]. exists st1. split; [exact Hres|].
    destruct thrown; repeat split.
Qed.

Section AnyRemote.
Variables (tool : Tool) (prompt : string)
          (mask : option (MaskingCanvas.Settled string)) (ai : Remote)
          (images : list OriginalImage) (st : State).

(** X5: [handleGenerate], in both versions, leaves [isLoading] false when
    it found it false: whatever the tool, the prompt, the mask and the
    replies of the remote model, also when a call rejects or the mask
    cannot be had, the [finally] block puts the flag back. *)
Theorem handleGenerate_clears_loading :
  isLoading st = false ->
  isLoading (ImageEditor.handleGenerate tool prompt mask ai images st) = false
  /\ isLoading (ImageEditorPart003.handleGenerate tool prompt mask ai images st) = false.
Proof.
  intros Hl. split.
  - destruct (handleGenerate_result false tool prompt mask ai images st)
      as [(_ & H & _) | (H & _)]; simpl in H; congruence.
  - destruct (handleGenerate_result true tool prompt mask ai images st)
      as [(_ & H & _) | (H & _)]; simpl in H; congruence.
Qed.

(** A request of [handleGenerate]: the image first, the text last, the
    mask between them when the tool needs one and the canvas gives it. *)
Definition request_for (image : OriginalImage) (r : list Part) : Prop :=
  r = [imagePart image; textPart tool prompt]
  \/ exists maskDataUrl,
       requiresMask tool = true /\ mask = Some (MaskingCanvas.Resolved maskDataUrl)
       /\ r = [imagePart image; maskPart maskDataUrl; textPart tool prompt].

Lemma parts_for_shape image :
  mask_ok tool mask -> request_for image (parts_for tool prompt mask image).
Proof.
  unfold mask_ok, parts_for, request_parts, request_for. intros Hm.
  destruct (requiresMask tool); [|left; reflexivity].
  destruct mask as [[url|reason]|]; [right; eauto|exfalso; eapply Hm; eauto|left; reflexivity].
Qed.

(** X6: the calls of [generateContent] that one run of [handleGenerate]
    makes, in either version: at most one for each uploaded image, for the
    images in their order from the first on, without a gap; at most one
    call at all outside batch mode; and each call carries the image, then
    the mask if the tool needs one and the canvas gave it, then the text. *)
Theorem handleGenerate_requests (later : bool) :
  let st' := handleGenerate_of later tool prompt mask ai images st in
  exists k, (k <= length images)%nat
    /\ (isBatchMode tool = false -> (k <= 1)%nat)
    /\ length (requests st') = (length (requests st) + k)%nat
    /\ forall i, (i < k)%nat ->
         exists image, images !! i = Some image
           /\ exists r, requests st' !! (length (requests st) + i)%nat = Some r
                /\ request_for image r.
Proof.
  intros st'.
  destruct (handleGenerate_result later tool prompt mask ai images st)
    as [(Hr & _) | (_ & st1 & ((k & Hk & Hk1 & Hm & Hreq) & _) & Hr & _)];
    fold st' in Hr.
  - exists 0%nat. rewrite Hr. repeat split; lia.
  - exists k. rewrite Hr, Hreq. simpl.
    rewrite length_app, length_map, length_take.
    split; [exact Hk|]. split; [exact Hk1|]. split; [lia|].
    intros i Hi.
    destruct (lookup_lt_is_Some_2 images i ltac:(lia)) as [image Himage].
    exists image. split; [exact Himage|].
    exists (parts_for tool prompt mask image). split.
    + rewrite lookup_app_r by lia.
      replace (length (requests st) + i - length (requests st))%nat with i by lia.
      rewrite list_lookup_fmap, lookup_take_lt by lia. rewrite Himage. reflexivity.
    + apply parts_for_shape, Hm. lia.
Qed.

(** X7: the generated images shown after [handleGenerate] carry the ids
    of uploaded images, each at most once and in the order of the upload. *)
Theorem generated_images_follow_uploads (later : bool) :
  generatedImages st = [] ->
  let st' := handleGenerate_of later tool prompt mask ai images st in
  sublist (map gid (generatedImages st')) (map oid images).
Proof.
  intros Hg st'.
  destruct (handleGenerate_result later tool prompt mask ai images st)
    as [(_ & _ & Hgen) | (_ & st1 & (_ & _ & Hgen) & _ & Hgen')];
    fold st' in Hgen; try fold st' in Hgen'.
  - rewrite Hgen, Hg. apply sublist_nil_l.
  - rewrite Hgen'. simpl in Hgen.
    destruct Hgen as [-> | (generated & -> & Hsub)]; [apply sublist_nil_l|exact Hsub].
Qed.


End AnyRemote.

Local Open Scope string_scope.


Definition removeBackground : Tool :=
  mkTool BackgroundRemover "Remove the background." false.

Definition uploads : list OriginalImage :=
  [mkOriginal 7 "data:image/png;base64,AAAA" "a.png" "image/png";
   mkOriginal 9 "data:image/png;base64,BBBB" "b.png" "image/png"].

(** A remote model that gives an image for every second call. *)
Definition everySecond : Remote :=
  fun n _ => if Nat.even n then Returns None
             else Returns (Some (Some (mkInline "CCCC" "image/png"))).

Definition idle : State := mkState [] false None [].


Lemma generated_images_follow_uploads_witness :
  sublist (map gid (generatedImages
             (ImageEditor.handleGenerate removeBackground "" None
                everySecond uploads idle)))
          [7%nat; 9%nat].
Proof.
  exact (generated_images_follow_uploads removeBackground "" None
           everySecond uploads idle false eq_refl).
Defined.

Lemma handleGenerate_clears_loading_witness :
  isLoading (ImageEditorPart003.handleGenerate removeBackground "" None
               everySecond uploads idle) = false.
Proof.
  exact (proj2 (handleGenerate_clears_loading removeBackground "" None
                  everySecond uploads idle eq_refl)).
Defined.

End GenerationLoopFacts.

(** ** Uploading *)

Module UploadFacts.
Import Generation GenerationFacts Upload StringFacts.
Local Open Scope string_scope.






Lemma readAll_types now (files : list File) : forall index images,
  readAll now index files = inr images ->
  map fileType images = map type files.
Proof.
  induction files as [|file rest IH]; intros index images; simpl.
  - intros [= <-]. reflexivity.
  - destruct (read file) as [e|d]; [discriminate|].
    destruct (readAll now (S index) rest) as [e|images'] eqn:Er; [discriminate|].
    intros [= <-]. simpl. rewrite (IH _ _ Er). reflexivity.
Qed.

Lemma filter_no_image (files : list File) :
  Forall (fun file => isImage file = false) files ->
  List.filter isImage files = [].
Proof.
  induction 1 as [|x l Hx _ IH]; simpl; [reflexivity|]. rewrite Hx. exact IH.
Qed.

(** X12: [processFiles] of unnamed/part_003 never uploads a file that is
    not an image: if every uploaded image has a type that starts with [image/]
    (and, outside batch mode, there is at most one), this is so after
    [processFiles], whatever files it is given; and files among which
    there is no image change nothing but the error. *)
Theorem processFiles_keeps_images_only (tool : Tool) (now : nat -> nat)
    (files : list File) (st : State) :
  Forall (fun image => String.prefix "image/" (fileType image) = true)
         (originalImages st) ->
  (isBatchMode tool = false -> (length (originalImages st) <= 1)%nat) ->
  let st' := processFiles tool now files st in
  Forall (fun image => String.prefix "image/" (fileType image) = true)
         (originalImages st')
  /\ (isBatchMode tool = false -> (length (originalImages st') <= 1)%nat)
  /\ (files <> [] -> Forall (fun file => isImage file = false) files ->
      st' = setError
              (Some "No valid image files provided. Please use PNG, JPG, or WEBP.")
              st).
Proof.
  intros Himg Hone st'. unfold st', processFiles.
  destruct files as [|f rest].
  { split; [exact Himg|]. split; [exact Hone|]. intros Hne. contradiction. }
  destruct (List.filter isImage (f :: rest)) as [|first valid] eqn:Ef.
  { split; [exact Himg|]. split; [exact Hone|]. reflexivity. }
  assert (Forall (fun file => isImage file = true) (first :: valid)) as Hvalid.
  { rewrite <- Ef. apply Forall_forall. intros x Hx.
    apply list_elem_of_In, filter_In in Hx. apply Hx. }
  set (filesToProcess := if isBatchMode tool then first :: valid else [first]).
  assert (Forall (fun file => isImage file = true) filesToProcess) as Hproc.
  { unfold filesToProcess. destruct (isBatchMode tool); [exact Hvalid|].
    inversion Hvalid; subst. constructor; [assumption|constructor]. }
  assert (isBatchMode tool = false -> (length filesToProcess <= 1)%nat) as Hlen.
  { unfold filesToProcess. intros ->. simpl. lia. }
  assert (forall st1, originalImages st1 = [] ->
            Forall (fun image => String.prefix "image/" (fileType image) = true)
                   (originalImages st1)
            /\ (isBatchMode tool = false -> (length (originalImages st1) <= 1)%nat))
    as Hnil.
  { intros st1 ->. split; [constructor|]. intros _. simpl. lia. }
  split; [|split].
  3: { intros _ Hall. rewrite (filter_no_image _ Hall) in Ef. discriminate. }
  all: destruct (readAll now 0 filesToProcess) as [[message|v]|images] eqn:Er;
    try (apply Hnil; reflexivity).
  - pose proof (readAll_types now _ _ _ Er) as Ht. cbn.
    apply Forall_forall. intros image Hi.
    assert (fileType image ∈ map type filesToProcess) as Hin.
    { rewrite <- Ht. apply list_elem_of_fmap. eauto. }
    apply list_elem_of_fmap in Hin. destruct Hin as (file & -> & Hfile).
    rewrite Forall_forall in Hproc. exact (Hproc file Hfile).
  - pose proof (readAll_types now _ _ _ Er) as Ht. cbn.
    intros Hb. apply (f_equal (@length _)) in Ht.
    rewrite !length_map in Ht. rewrite Ht. apply Hlen, Hb.
Qed.

Lemma append_assoc (a b c : string) : (a ++ b) ++ c = a ++ b ++ c.
Proof.
  induction a as [|x a IH]; [reflexivity|].
  change (String x ((a ++ b) ++ c) = String x (a ++ b ++ c)). f_equal. exact IH.
Qed.

Lemma free_of_app sep a b :
  free_of sep (a ++ b) = free_of sep a && free_of sep b.
Proof.
  induction a as [|c rest IH]; simpl; [reflexivity|].
  rewrite IH, andb_assoc. reflexivity.
Qed.

(** X13: what a request carries for an uploaded file is the data that
    was read from it, under its type: the base64 text put into the data
    URL at the upload is the one that [handleGenerate] takes out of it,
    as long as neither the type nor the data holds a comma. *)
Theorem uploaded_image_part (now : nat -> nat) (index : nat) (file : File)
    (base64Data : string) :
  free_of comma (type file) = true -> free_of comma base64Data = true ->
  imagePart (uploaded now index file base64Data)
  = InlinePart (Some base64Data) (type file).
Proof.
  intros Ht Hd. unfold imagePart, uploaded, base64_of.
  cbn [dataUrl fileType]. f_equal.
  change (";base64," ++ base64Data) with (";base64" ++ String comma base64Data).
  rewrite <- (append_assoc (type file) ";base64" (String comma base64Data)).
  rewrite <- (append_assoc "data:" (type file ++ ";base64")
                (String comma base64Data)).
  rewrite split_first.
  - rewrite (split_free comma base64Data Hd). reflexivity.
  - rewrite !free_of_app, Ht. reflexivity.
Qed.

(** A PNG file that can be read and a text file. *)
Definition catFile : File := mkFile "cat.png" "image/png" (inr "AAAA").
Definition notesFile : File := mkFile "notes.txt" "text/plain" (inr "BBBB").

Definition empty : State := mkState [] [] false None "" false false None.

Definition enhancer : Tool := mkTool ImageEnhancer "Enhance the image." false.


Lemma processFiles_keeps_images_only_witness :
  let st' := processFiles enhancer (fun _ => 5%nat) [notesFile; catFile] empty in
  Forall (fun image => String.prefix "image/" (fileType image) = true)
         (originalImages st').
Proof.
  refine (proj1 (processFiles_keeps_images_only enhancer (fun _ => 5%nat)
                   [notesFile; catFile] empty _ _)).
  - constructor.
  - intros _. simpl. lia.
Defined.

Lemma uploaded_image_part_witness :
  imagePart (uploaded (fun _ => 5%nat) 0 catFile "AAAA")
  = InlinePart (Some "AAAA") "image/png".
Proof.
  exact (uploaded_image_part (fun _ => 5%nat) 0 catFile "AAAA" eq_refl eq_refl).
Defined.

End UploadFacts.

(** ** The first version of handleGenerate *)

Module Part004Facts.
Import Generation GenerationFacts.

Lemma loop_part004 tool prompt ai :
  resolves ai ->
  forall images processedImages st,
  exists st',
    ImageEditorPart004.generate_loop tool prompt ai images processedImages st
      = (st', None)
    /\ requests st' = requests st ++ map (ImageEditorPart004.parts_of tool prompt) images
    /\ error st' = error st /\ isLoading st' = isLoading st.
Proof.
  intros Hr. induction images as [|image rest IH]; intros processedImages st.
  - exists st. simpl. rewrite app_nil_r. repeat split.
  - simpl. unfold generateContent.
    destruct (Hr (length (requests st)) (ImageEditorPart004.parts_of tool prompt image))
      as [firstPart ->].
    destruct firstPart as [[inlineData|]|];
      match goal with
      | |- context [ImageEditorPart004.generate_loop _ _ _ rest ?p ?s] =>
          destruct (IH p s) as (st' & -> & Hreq & He & Hl)
      end;
      exists st'; (split; [reflexivity|]); rewrite Hreq, He, Hl; simpl;
      rewrite <- app_assoc; repeat split.
Qed.

(** X14: the first version of [handleGenerate] (unnamed/part_004), when
    every remote call resolves: a request is made for every uploaded
    image, in order, each with the image and the text; an empty result is
    only logged, so that no error is set; and the loading flag is cleared. *)
Theorem part004_drops_empty_results (tool : Tool) (prompt : string) (ai : Remote)
    (images : list OriginalImage) (st : State) :
  resolves ai -> images <> [] ->
  let st' := ImageEditorPart004.handleGenerate tool prompt ai images st in
  requests st' = requests st ++ map (ImageEditorPart004.parts_of tool prompt) images
  /\ error st' = None
  /\ isLoading st' = false.
Proof.
  intros Hr Hne st'. unfold st', ImageEditorPart004.handleGenerate.
  assert ((length images =? 0)%nat = false) as ->
    by (apply Nat.eqb_neq; destruct images; [contradiction|simpl; lia]).
  destruct (loop_part004 tool prompt ai Hr images []
              (setGeneratedImages [] (setError None (setIsLoading true st))))
    as (st1 & -> & Hreq & He & _).
  simpl. repeat split; assumption.
Qed.

(** A remote model that never gives an image. *)
Definition noImage : Remote := fun _ _ => Returns None.

Definition threeUploads : list OriginalImage :=
  [mkOriginal 1 "data:image/png;base64,AAAA" "a.png" "image/png";
   mkOriginal 2 "data:image/png;base64,BBBB" "b.png" "image/png";
   mkOriginal 3 "data:image/png;base64,CCCC" "c.png" "image/png"].

Lemma part004_drops_empty_results_witness :
  let st' := ImageEditorPart004.handleGenerate
               (mkTool ImageEnhancer "Enhance the image."%string false) ""%string
               noImage threeUploads (mkState [] false None []) in
  length (requests st') = 3%nat /\ error st' = None /\ isLoading st' = false.
Proof.
  destruct (part004_drops_empty_results
              (mkTool ImageEnhancer "Enhance the image."%string false) ""%string
              noImage threeUploads (mkState [] false None []))
    as (Hr & He & Hl).
  - intros n parts. exists None. reflexivity.
  - discriminate.
  - split; [|split; [exact He|exact Hl]].
    rewrite Hr. reflexivity.
Defined.

End Part004Facts.

(** ** The live conversation: whole runs *)

Module LiveConversationRuns.
Import JSString JSStringFacts LiveConversation LiveConversationFacts.
Local Open Scope Q_scope.

(** Every event but a call of [startConversation]. *)
Definition not_start (ev : Event) : Prop :=
  match ev with StartConversation _ _ => False | _ => True end.

(** The bookkeeping of the audio sources: the sources started are
    numbered in the order of their [start] calls; a source that is
    tracked, or on which [stop()] was called, has been started; and
    [stop()] has not been called on a tracked source. *)
Definition accounted (st : State) : Prop :=
  map (fun e : nat * Q * Q => fst (fst e)) (started st) = seq 0 (nextSourceId st)
  /\ (forall source, source ∈ audioSourcesRef st ∪ stopCalls st ->
        (source < nextSourceId st)%nat)
  /\ audioSourcesRef st ## stopCalls st.

(** The result of [audioData_of] does not depend on the state. *)
Lemma audioData_of_state (content : option ServerContent) (s s0 : State) :
  audioData_of content s = (fst (audioData_of content s0), s).
Proof.
  unfold audioData_of.
  destruct content as [[it ot tc [[[ps|]]|] ir]|]; cbn; try reflexivity.
  destruct ps as [|[[b|]] ps]; reflexivity.
Qed.

Section Handlers.
Context `{AudioDecoder}.

(** The state after the audio part and the interruption part of
    [onmessage]. *)
Lemma audio_tail_closed (content : option ServerContent) (t : Q) (s : State) :
  snd (audio_tail content t s)
  = match fst (audioData_of content s) with
    | Throw _ => s
    | Normal audioData =>
        let s1 :=
          match audioData with
          | Some (c :: r) =>
              if outputAudioContextRef s then snd (schedule (c :: r) t s) else s
          | _ => s
          end in
        if default false (interrupted <$> content)
        then snd (stop_all_sources s1) else s1
    end.
Proof.
  unfold audio_tail, handle_audio, audioData_of.
  destruct s as [s tr e sp ic oc spr mss ms ci co ns src cs nid stt stc rel cons].
  destruct content as [[it ot tc mt ir]|]; simpl.
  2: { reflexivity. }
  destruct mt as [[ps]|]; simpl.
  2: { destruct ir; reflexivity. }
  destruct ps as [ps|]; simpl.
  2: { reflexivity. }
  destruct ps as [|[[[[[|c r]|]]|]] ps]; simpl; try reflexivity;
    destruct ir; try reflexivity; destruct oc; reflexivity.
Qed.

Lemma schedule_fields (d : list N) (t : Q) (s : State) :
  let s' := snd (schedule d t s) in
  started s'
  = started s ++ [(nextSourceId s, Qmax (nextStartTimeRef s) t, duration d)]
  /\ nextSourceId s' = S (nextSourceId s)
  /\ audioSourcesRef s' = audioSourcesRef s ∪ {[nextSourceId s]}
  /\ stopCalls s' = stopCalls s
  /\ nextStartTimeRef s' = Qmax (nextStartTimeRef s) t + duration d
  /\ outputAudioContextRef s' = outputAudioContextRef s
  /\ transcript s' = transcript s.
Proof. destruct s. repeat split. Qed.

Lemma stop_all_sources_fields (s : State) :
  let s' := snd (stop_all_sources s) in
  started s' = started s /\ nextSourceId s' = nextSourceId s
  /\ audioSourcesRef s' = ∅
  /\ stopCalls s' = stopCalls s ∪ audioSourcesRef s
  /\ nextStartTimeRef s' = 0
  /\ outputAudioContextRef s' = outputAudioContextRef s
  /\ transcript s' = transcript s.
Proof. destruct s. repeat split. Qed.

Lemma after_transcription_fields (content : option ServerContent) (s : State) :
  let s' := after_transcription content s in
  started s' = started s /\ nextSourceId s' = nextSourceId s
  /\ audioSourcesRef s' = audioSourcesRef s
  /\ stopCalls s' = stopCalls s
  /\ nextStartTimeRef s' = nextStartTimeRef s
  /\ outputAudioContextRef s' = outputAudioContextRef s.
Proof.
  unfold after_transcription.
  destruct (default false (turnComplete <$> content)); destruct s; repeat split.
Qed.

(** What one event does to the audio sources: nothing but forgetting
    sources that have ended; or [stop()] on every tracked source; or one
    more source started, which needs the output context, and then tracked,
    or stopped at once with the others. *)
Definition playback_step (st st' : State) : Prop :=
  (started st' = started st /\ nextSourceId st' = nextSourceId st
   /\ (audioSourcesRef st' ⊆ audioSourcesRef st /\ stopCalls st' = stopCalls st
       \/ audioSourcesRef st' = ∅
          /\ stopCalls st' = stopCalls st ∪ audioSourcesRef st))
  \/ (outputAudioContextRef st = true
      /\ (exists start d,
            started st' = started st ++ [(nextSourceId st, start, d)])
      /\ nextSourceId st' = S (nextSourceId st)
      /\ (audioSourcesRef st' = audioSourcesRef st ∪ {[nextSourceId st]}
          /\ stopCalls st' = stopCalls st
          \/ audioSourcesRef st' = ∅
             /\ stopCalls st'
                = stopCalls st ∪ (audioSourcesRef st ∪ {[nextSourceId st]}))).

Lemma message_playback (st : State) (message : LiveServerMessage) (t : Q) :
  playback_step st (step st (OnMessage message t)).
Proof.
  rewrite step_onmessage, audio_tail_closed.
  set (content := serverContent message).
  destruct (after_transcription_fields content st) as (A1 & A2 & A3 & A4 & A5 & A6).
  set (s := after_transcription content st) in *.
  assert (playback_step st s) as Hsame.
  { left. rewrite A1, A2, A3, A4. repeat split. left. split; reflexivity. }
  assert (playback_step st (snd (stop_all_sources s))) as Hstop.
  { destruct (stop_all_sources_fields s) as (S1 & S2 & S3 & S4 & _).
    left. rewrite S1, S2, S3, S4, A1, A2, A3, A4. repeat split.
    right. split; reflexivity. }
  destruct (fst (audioData_of content s)) as [[[|c r]|]|e]; cbv zeta;
    try (destruct (default false (interrupted <$> content)); assumption).
  destruct (outputAudioContextRef s) eqn:Hctx;
    [|destruct (default false (interrupted <$> content)); assumption].
  destruct (schedule_fields (c :: r) t s) as (C1 & C2 & C3 & C4 & _).
  right. split; [congruence|].
  destruct (default false (interrupted <$> content)).
  - destruct (stop_all_sources_fields (snd (schedule (c :: r) t s)))
      as (S1 & S2 & S3 & S4 & _).
    rewrite S1, S2, S3, S4, C1, C2, C3, C4, A1, A2, A3, A4.
    split; [eauto|]. split; [reflexivity|]. right. split; reflexivity.
  - rewrite C1, C2, C3, C4, A1, A2, A3, A4.
    split; [eauto|]. split; [reflexivity|]. left. split; reflexivity.
Qed.

(** The fields that [startConversation] and [onopen] leave alone. *)
Lemma start_fields (st : State) (microphone : bool) (promise : SessionPromise) :
  let st' := step st (StartConversation microphone promise) in
  started st' = started st /\ nextSourceId st' = nextSourceId st
  /\ audioSourcesRef st' = audioSourcesRef st /\ stopCalls st' = stopCalls st
  /\ (transcript st' = transcript st \/ transcript st' = []).
Proof.
  destruct st as [s tr e sp ic oc spr mss ms ci co ns src cs nid stt stc rl cons].
  unfold step, handler, startConversation, try_catch, try_catch_finally,
    console_error, when, get, modify, mbind, M_bind, mret, M_ret, mthrow, M_throw.
  cbn [status]. destruct s, microphone; cbn; repeat split; auto.
Qed.

Lemma open_fields (st : State) :
  let st' := step st OnOpen in
  started st' = started st /\ nextSourceId st' = nextSourceId st
  /\ audioSourcesRef st' = audioSourcesRef st /\ stopCalls st' = stopCalls st
  /\ transcript st' = transcript st
  /\ outputAudioContextRef st' = outputAudioContextRef st.
Proof.
  destruct st as [s tr e sp ic oc spr mss ms ci co ns src cs nid stt stc rl cons].
  unfold step, handler, onopen, when, get, modify, mbind, M_bind, mret, M_ret,
    mthrow, M_throw.
  destruct ic; cbn; repeat split.
Qed.

Lemma close_fields (st : State) :
  let st' := step st OnClose in
  started st' = started st /\ nextSourceId st' = nextSourceId st
  /\ audioSourcesRef st' = audioSourcesRef st /\ stopCalls st' = stopCalls st
  /\ transcript st' = transcript st
  /\ (outputAudioContextRef st' = outputAudioContextRef st
      \/ outputAudioContextRef st' = false).
Proof.
  destruct st as [s tr e sp ic oc spr mss ms ci co ns src cs nid stt stc rl cons].
  unfold step, handler, onclose, when, get, modify, mbind, M_bind, mret, M_ret.
  cbn [closureStatus status]. destruct cs; cbn [ConversationStatus_eqb negb];
    try (cbn; repeat split; auto; fail);
    rewrite (stopAudioProcessing_normal _); cbn; repeat split; auto.
Qed.

Lemma error_fields (st : State) :
  let st' := step st OnError in
  started st' = started st /\ nextSourceId st' = nextSourceId st
  /\ audioSourcesRef st' = ∅
  /\ stopCalls st' = stopCalls st ∪ audioSourcesRef st
  /\ transcript st' = transcript st
  /\ outputAudioContextRef st' = false.
Proof.
  unfold step, handler, onerror, not_awaited, console_error, modify,
    mbind, M_bind.
  rewrite stopConversation_normal. destruct st; cbn. repeat split.
Qed.

Lemma stop_fields (st : State) :
  let st' := step st StopConversation in
  started st' = started st /\ nextSourceId st' = nextSourceId st
  /\ audioSourcesRef st' = ∅
  /\ stopCalls st' = stopCalls st ∪ audioSourcesRef st
  /\ transcript st' = transcript st
  /\ outputAudioContextRef st' = false.
Proof.
  unfold step, handler. rewrite stopConversation_normal. cbn. repeat split.
Qed.

Lemma ended_fields (st : State) (source : nat) :
  let st' := step st (Ended source) in
  started st' = started st /\ nextSourceId st' = nextSourceId st
  /\ audioSourcesRef st' = audioSourcesRef st ∖ {[source]}
  /\ stopCalls st' = stopCalls st
  /\ transcript st' = transcript st
  /\ outputAudioContextRef st' = outputAudioContextRef st.
Proof. destruct st. cbn. repeat split. Qed.

Lemma step_playback (st : State) (ev : Event) : playback_step st (step st ev).
Proof.
  destruct ev as [microphone promise| | |message t| | |source];
    [| | |apply message_playback| | |]; unfold playback_step.
  - destruct (start_fields st microphone promise) as (-> & -> & -> & -> & _).
    left. repeat split. left. split; reflexivity.
  - destruct (stop_fields st) as (-> & -> & -> & -> & _).
    left. repeat split. right. split; reflexivity.
  - destruct (open_fields st) as (-> & -> & -> & -> & _).
    left. repeat split. left. split; reflexivity.
  - destruct (error_fields st) as (-> & -> & -> & -> & _).
    left. repeat split. right. split; reflexivity.
  - destruct (close_fields st) as (-> & -> & -> & -> & _).
    left. repeat split. left. split; reflexivity.
  - destruct (ended_fields st source) as (-> & -> & -> & -> & _).
    left. repeat split. left. split; [set_solver|reflexivity].
Qed.

Lemma accounted_initial : accounted initial.
Proof.
  split; [reflexivity|]. split; [|set_solver].
  intros source Hs. cbn in Hs. set_solver.
Qed.

Lemma step_accounted (st : State) (ev : Event) :
  accounted st -> accounted (step st ev).
Proof.
  intros (Hids & Hlt & Hdisj). unfold accounted.
  destruct (step_playback st ev)
    as [(-> & -> & Hsets) | (_ & (start & d & ->) & -> & Hsets)].
  - split; [exact Hids|].
    destruct Hsets as [(Hsub & ->) | (-> & ->)].
    + split; [|set_solver]. intros source Hs. apply Hlt. set_solver.
    + split; [|set_solver]. intros source Hs. apply Hlt. set_solver.
  - split.
    { rewrite map_app, seq_S, Hids. reflexivity. }
    assert (nextSourceId st ∉ audioSourcesRef st ∪ stopCalls st) as Hfresh.
    { intros Hin. apply Hlt in Hin. lia. }
    destruct Hsets as [(-> & ->) | (-> & ->)].
    + split; [|set_solver]. intros source Hs.
      destruct (decide (source = nextSourceId st)) as [->|Hne]; [lia|].
      assert (source < nextSourceId st)%nat; [apply Hlt; set_solver|lia].
    + split; [|set_solver]. intros source Hs.
      destruct (decide (source = nextSourceId st)) as [->|Hne]; [lia|].
      assert (source < nextSourceId st)%nat; [apply Hlt; set_solver|lia].
Qed.

(** X15: through every run of the hook, the sources started are numbered
    in the order of their [start] calls, every source that is tracked or
    on which [stop()] was called is one that was started, and [stop()] has
    not been called on a source that is still tracked. *)
Theorem sources_stay_accounted (evs : list Event) (st : State) :
  accounted st -> accounted (run evs st).
Proof.
  revert st. induction evs as [|ev evs IH]; intros st Hst; [exact Hst|].
  apply (IH (step st ev)), step_accounted, Hst.
Qed.

Lemma step_output_context (st : State) (ev : Event) :
  not_start ev -> outputAudioContextRef st = false ->
  outputAudioContextRef (step st ev) = false.
Proof.
  intros Hev Hctx.
  destruct ev as [microphone promise| | |message t| | |source];
    [contradiction| | | | | |].
  - apply stop_fields.
  - destruct (open_fields st) as (_ & _ & _ & _ & _ & ->). exact Hctx.
  - rewrite step_onmessage, audio_tail_closed.
    destruct (after_transcription_fields (serverContent message) st)
      as (_ & _ & _ & _ & _ & A6).
    set (s := after_transcription (serverContent message) st) in *.
    rewrite A6, Hctx.
    assert (outputAudioContextRef (snd (stop_all_sources s)) = false) as Hstop.
    { destruct (stop_all_sources_fields s) as (_ & _ & _ & _ & _ & -> & _).
      congruence. }
    destruct (fst (audioData_of (serverContent message) s)) as [[[|c r]|]|e];
      cbv beta iota zeta;
      destruct (default false (interrupted <$> serverContent message));
      congruence.
  - apply error_fields.
  - destruct (close_fields st) as (_ & _ & _ & _ & _ & [-> | ->]);
      [exact Hctx|reflexivity].
  - destruct (ended_fields st source) as (_ & _ & _ & _ & _ & ->). exact Hctx.
Qed.

(** X16: while there is no output audio context (before the first
    start, after a stop, an error or a close), whatever messages and other
    callbacks arrive until the next call of [startConversation], no source
    is created or started, and no source is added to the tracked ones. *)
Theorem no_playback_without_output_context (evs : list Event) (st : State) :
  outputAudioContextRef st = false -> Forall not_start evs ->
  let st' := run evs st in
  started st' = started st /\ nextSourceId st' = nextSourceId st
  /\ audioSourcesRef st' ⊆ audioSourcesRef st
  /\ outputAudioContextRef st' = false.
Proof.
  revert st. induction evs as [|ev evs IH]; intros st Hctx Hevs.
  - cbn. split; [reflexivity|split; [reflexivity|split; [reflexivity|exact Hctx]]].
  - inversion Hevs as [|? ? Hev Hrest]; subst.
    pose proof (step_output_context st ev Hev Hctx) as Hctx'.
    destruct (IH (step st ev) Hctx' Hrest) as (I1 & I2 & I3 & I4).
    change (run (ev :: evs) st) with (run evs (step st ev)). cbv zeta.
    rewrite I1, I2. split; [|split; [|split; [|exact I4]]].
    + destruct (step_playback st ev) as [(-> & _) | (Hc & _)];
        [reflexivity|congruence].
    + destruct (step_playback st ev) as [(_ & -> & _) | (Hc & _)];
        [reflexivity|congruence].
    + destruct (step_playback st ev) as [(_ & _ & Hsets) | (Hc & _)];
        [|congruence].
      etransitivity; [exact I3|].
      destruct Hsets as [(Hsub & _) | (-> & _)]; [exact Hsub|set_solver].
Qed.

(** The transcript after one event. *)
Lemma step_transcript (st : State) (ev : Event) :
  transcript (step st ev) = transcript st
  \/ (~ not_start ev /\ transcript (step st ev) = [])
  \/ exists userInput modelOutput,
       transcript (step st ev)
       = transcript st ++ newEntries (trim userInput) (trim modelOutput).
Proof.
  destruct ev as [microphone promise| | |message t| | |source].
  - destruct (start_fields st microphone promise) as (_ & _ & _ & _ & [Ht|Ht]);
      [left; exact Ht|right; left; split; [intros Hn; exact Hn|exact Ht]].
  - left. apply stop_fields.
  - left. apply open_fields.
  - rewrite step_onmessage.
    destruct (audio_tail_frame (serverContent message) t
                (after_transcription (serverContent message) st)) as (_ & -> & _).
    unfold after_transcription.
    destruct (default false (turnComplete <$> serverContent message)).
    + right. right. destruct st; cbn. eauto.
    + left. destruct st; reflexivity.
  - left. apply error_fields.
  - left. apply close_fields.
  - left. apply ended_fields.
Qed.

(** X17: until the next call of [startConversation], the transcript only
    grows at its end: no message, stop, error, close or end of a source
    removes or changes an entry. *)
Theorem transcript_kept_until_restart (evs : list Event) (st : State) :
  Forall not_start evs -> transcript st `prefix_of` transcript (run evs st).
Proof.
  revert st. induction evs as [|ev evs IH]; intros st Hevs; [reflexivity|].
  inversion Hevs as [|? ? Hev Hrest]; subst.
  change (run (ev :: evs) st) with (run evs (step st ev)).
  etransitivity; [|apply IH, Hrest].
  destruct (step_transcript st ev) as [-> | [(Hn & _) | (u & m & ->)]];
    [reflexivity|contradiction|apply prefix_app_r; reflexivity].
Qed.

(** X18: in every run, the text of every entry of the transcript is a
    trimmed string that is not empty, if this was so at the beginning. *)
Theorem transcript_entries_trimmed (evs : list Event) (st : State) :
  Forall (fun e => trimmed (text e)) (transcript st) ->
  Forall (fun e => trimmed (text e)) (transcript (run evs st)).
Proof.
  revert st. induction evs as [|ev evs IH]; intros st Hst; [exact Hst|].
  apply (IH (step st ev)).
  destruct (step_transcript st ev) as [-> | [(_ & ->) | (u & m & ->)]];
    [exact Hst|constructor|].
  apply Forall_app. split; [exact Hst|apply newEntries_trimmed].
Qed.

(** X19: a message with [interrupted], whose audio data can be read:
    afterwards no source is tracked and the cursor is 0; [stop()] has been
    called on every source that was tracked; and a chunk that the message
    itself carries is started, at the later of the cursor and the clock,
    and stopped in the same handler. *)
Theorem interruption_stops_playback (st : State) (message : LiveServerMessage)
    (content : ServerContent) (audioData : option (list N)) (currentTime : Q) :
  serverContent message = Some content -> interrupted content = true ->
  audioData_of (Some content) st = (Normal audioData, st) ->
  let st' := step st (OnMessage message currentTime) in
  audioSourcesRef st' = ∅ /\ nextStartTimeRef st' = 0
  /\ audioSourcesRef st ⊆ stopCalls st'
  /\ (forall d, audioData = Some d -> d <> [] -> outputAudioContextRef st = true ->
        started st'
        = started st ++ [(nextSourceId st, Qmax (nextStartTimeRef st) currentTime,
                          duration d)]
        /\ nextSourceId st ∈ stopCalls st').
Proof.
  intros Hc Hi Ha st'. unfold st'.
  rewrite step_onmessage, Hc, audio_tail_closed.
  destruct (after_transcription_fields (Some content) st)
    as (A1 & A2 & A3 & A4 & A5 & A6).
  set (s := after_transcription (Some content) st) in *.
  rewrite (audioData_of_state (Some content) s st), Ha.
  change (default false (interrupted <$> Some content)) with (interrupted content).
  rewrite Hi. cbv beta iota zeta. cbn [fst].
  match goal with
  | |- context [snd (stop_all_sources ?s1)] =>
      destruct (stop_all_sources_fields s1) as (S1 & S2 & S3 & S4 & S5 & _);
      set (s1' := s1) in *
  end.
  rewrite S3, S4, S5, S1.
  split; [reflexivity|]. split; [reflexivity|]. split.
  - subst s1'. destruct audioData as [[|c r]|]; try (rewrite A3; set_solver).
    destruct (outputAudioContextRef s); [|rewrite A3; set_solver].
    destruct (schedule_fields (c :: r) currentTime s) as (_ & _ & C3 & _).
    rewrite C3, A3. set_solver.
  - intros d -> Hd Hctx. subst s1'. destruct d as [|c r]; [contradiction|].
    rewrite A6, Hctx.
    destruct (schedule_fields (c :: r) currentTime s) as (C1 & _ & C3 & _).
    rewrite C1, C3, A1, A2, A3, A5. split; [reflexivity|set_solver].
Qed.

(** X20: a message whose model turn has no [parts], or whose first part
    has no [inlineData]: reading the audio data raises a [TypeError], the
    handler ends there, and the interruption that the message may carry is
    not handled: the tracked sources, the [stop()] calls, the cursor and
    the sources started are as before. *)
Theorem unreadable_turn_skips_interruption (st : State)
    (message : LiveServerMessage) (content : ServerContent) (turn : Content)
    (currentTime : Q) :
  serverContent message = Some content -> modelTurn content = Some turn ->
  (parts turn = None
   \/ exists part rest, parts turn = Some (part :: rest) /\ inlineData part = None) ->
  let st' := step st (OnMessage message currentTime) in
  fst (onmessage message currentTime st) = Throw "TypeError"%string
  /\ audioSourcesRef st' = audioSourcesRef st /\ stopCalls st' = stopCalls st
  /\ nextStartTimeRef st' = nextStartTimeRef st /\ started st' = started st.
Proof.
  intros Hc Ht Hp st'.
  assert (forall s, audioData_of (Some content) s = (Throw "TypeError"%string, s))
    as Hthrow.
  { intros s. unfold audioData_of. cbn. rewrite Ht.
    destruct Hp as [-> | (part & rest & -> & Hpart)]; [reflexivity|].
    cbn. rewrite Hpart. reflexivity. }
  split.
  - unfold onmessage. unfold mbind at 1, M_bind at 1.
    rewrite handle_transcription_normal, Hc.
    unfold mbind at 1, M_bind at 1. unfold handle_audio.
    unfold mbind at 1, M_bind at 1. rewrite Hthrow. reflexivity.
  - unfold st'. rewrite step_onmessage, Hc, audio_tail_closed, Hthrow.
    cbn [fst].
    destruct (after_transcription_fields (Some content) st)
      as (A1 & A2 & A3 & A4 & A5 & A6).
    repeat split; assumption.
Qed.

End Handlers.

(** A session that connects, and a conversation that has begun. *)
Definition connected : SessionPromise := Fulfilled (mkSession false).

Definition talking : State :=
  run (H := tenths) [StartConversation true connected; OnOpen] initial.

(** A message that carries a chunk of audio and an interruption, and one
    whose first part is text. *)
Definition interruptedTurn : ServerContent :=
  mkServerContent None None false
    (Some (mkContent (Some [mkPart (Some (mkBlob (Some (lit "abc"))))]))) true.

Definition textTurn : ServerContent :=
  mkServerContent None None false (Some (mkContent (Some [mkPart None]))) true.

Lemma sources_stay_accounted_witness :
  accounted
    (run (H := tenths)
       [OnMessage (audioMessage (lit "abc")) 1; Ended 0%nat;
        OnMessage (mkMessage (Some interruptedTurn)) 2; StopConversation]
       talking).
Proof.
  apply (sources_stay_accounted (H := tenths)).
  apply (sources_stay_accounted (H := tenths) [StartConversation true connected; OnOpen]).
  exact accounted_initial.
Defined.

Lemma no_playback_without_output_context_witness :
  started (run (H := tenths)
             [OnMessage (audioMessage (lit "abc")) 1; OnClose;
              OnMessage (mkMessage (Some interruptedTurn)) 2]
             initial) = [].
Proof.
  refine (proj1 (no_playback_without_output_context (H := tenths) _ initial
                   eq_refl _)).
  repeat constructor.
Defined.

Lemma transcript_kept_until_restart_witness :
  transcript talking
  `prefix_of` transcript
                (run (H := tenths)
                   [OnMessage (inputMessage (lit " hi ")) 0;
                    OnMessage turnCompleteMessage 0; OnError]
                   talking).
Proof.
  apply (transcript_kept_until_restart (H := tenths)).
  repeat constructor.
Defined.

Lemma transcript_entries_trimmed_witness :
  Forall (fun e => trimmed (text e))
    (transcript
       (run (H := tenths)
          [StartConversation true connected; OnOpen;
           OnMessage (inputMessage (lit " hi ")) 0;
           OnMessage turnCompleteMessage 0]
          initial)).
Proof.
  apply (transcript_entries_trimmed (H := tenths)). constructor.
Defined.

Lemma interruption_stops_playback_witness :
  let st' := step (H := tenths) talking (OnMessage (mkMessage (Some interruptedTurn)) 2) in
  audioSourcesRef st' = ∅ /\ nextStartTimeRef st' = 0.
Proof.
  destruct (interruption_stops_playback (H := tenths) talking
              (mkMessage (Some interruptedTurn)) interruptedTurn
              (Some (lit "abc")) 2 eq_refl eq_refl eq_refl)
    as (Ha & Hn & _).
  split; [exact Ha|exact Hn].
Defined.

Lemma unreadable_turn_skips_interruption_witness :
  let st := step (H := tenths) talking (OnMessage (audioMessage (lit "abc")) 1) in
  let st' := step (H := tenths) st (OnMessage (mkMessage (Some textTurn)) 2) in
  audioSourcesRef st' = audioSourcesRef st.
Proof.
  intros st.
  refine (proj1 (proj2 (unreadable_turn_skips_interruption (H := tenths) st
                          (mkMessage (Some textTurn)) textTurn
                          (mkContent (Some [mkPart None])) 2 eq_refl eq_refl _))).
  right. exists (mkPart None), []. split; reflexivity.
Defined.

End LiveConversationRuns.
